(** * httprouter: method dispatch and middleware composition

    A shallow embedding of [application.go] (the [Application] router built
    on [net/http]'s [ServeMux]) together with the properties of its
    registration, dispatch and middleware composition logic.

    Modelling conventions.
    - A handler receives the pointers [w] and [r]; both are shared mutable
      objects, so a handler is a transformer of one [World] that holds the
      response writer, the request and the variables captured by closures
      (the observation log [called] used by the tests).  A handler does
      not reach the router itself.
    - A Go panic is an [outcome]: [Panicked] carries the world at the time
      of the fault.  A [nil] [http.HandlerFunc] is [None]; calling it
      panics.  A handler that recovers from the panic of the handler it
      wraps is one that maps [Panicked] to [Returned].
    - In the first part a [Middleware] is a total function from handlers
      to handlers and a registration is one step: this is the router on
      calls that return.  A nil [Middleware], one that panics while it
      wraps, or a pattern that the multiplexer rejects aborts [handle]
      half way; the module [Steps] follows [handle] step by step with
      these panics, and the invariants of the route table are stated
      there.
    - The receiver [a *Application] is threaded explicitly: every method is
      a function from the state before the call to the state after it.
    - The closure handed to [mux.HandleFunc] captures only [a] and [path];
      it is represented by [path] (see [dispatch]) and reads the router as
      it is when the request arrives.  The multiplexer is the list of
      patterns it was handed, in call order; in the first part
      [HandleFunc] succeeds, in [Steps] it panics on the patterns that
      the multiplexer does not accept.  Which pattern a
      request matches is the multiplexer's business and is an input of
      [ServeHTTP].
    - [range] over a Go map visits every key once in an unspecified order:
      the order is the section variable [range_order], a permutation of
      the keys.
    - Requests are served between API calls, one at a time. *)

From Stdlib Require Import Ascii.
From stdpp Require Import gmap strings list.

Local Open Scope Z_scope.

(** ** net/http *)

Record Request := mkRequest {
  Method : string;
  URLPath : string;
  ReqHeader : gmap string string
}.

(** The response writer records what was written, as
    [httptest.ResponseRecorder] does. *)
Record ResponseWriter := mkResponseWriter {
  Code : Z;
  wroteHeader : bool;
  HeaderMap : gmap string string;
  Body : string
}.

Definition NewRecorder : ResponseWriter :=
  {| Code := 200; wroteHeader := false; HeaderMap := ∅; Body := "" |}.

Definition StatusOK : Z := 200.
Definition StatusUnauthorized : Z := 401.
Definition StatusNotFound : Z := 404.
Definition StatusMethodNotAllowed : Z := 405.

Definition MethodGet : string := "GET".
Definition MethodPost : string := "POST".
Definition MethodPut : string := "PUT".
Definition MethodPatch : string := "PATCH".
Definition MethodDelete : string := "DELETE".

(** [w.Header().Set(k, v)] and [w.Header().Del(k)]. *)
Definition Header_Set (k v : string) (w : ResponseWriter) : ResponseWriter :=
  {| Code := Code w; wroteHeader := wroteHeader w;
     HeaderMap := <[k := v]> (HeaderMap w); Body := Body w |}.

Definition Header_Del (k : string) (w : ResponseWriter) : ResponseWriter :=
  {| Code := Code w; wroteHeader := wroteHeader w;
     HeaderMap := delete k (HeaderMap w); Body := Body w |}.

(** [checkWriteHeaderCode] of [net/http]: [WriteHeader] panics on a code
    outside 100 to 999. *)
Definition checkWriteHeaderCode (code : Z) : bool :=
  (100 <=? code) && (code <=? 999).

(** [w.WriteHeader(code)] for a code that passes [checkWriteHeaderCode]:
    only the first call fixes the status. *)
Definition WriteHeader (code : Z) (w : ResponseWriter) : ResponseWriter :=
  if wroteHeader w then w
  else {| Code := code; wroteHeader := true;
          HeaderMap := HeaderMap w; Body := Body w |}.

(** [w.Write(s)]: commits status 200 when no status was written yet. *)
Definition Write (s : string) (w : ResponseWriter) : ResponseWriter :=
  let w' := WriteHeader StatusOK w in
  {| Code := Code w'; wroteHeader := wroteHeader w';
     HeaderMap := HeaderMap w'; Body := Body w' +:+ s |}.

Definition newline : string := String "010"%char EmptyString.

(** [http.Error(w, msg, code)]: plain-text headers, the status, and the
    message printed with [Fprintln]. *)
Definition Error (msg : string) (code : Z) (w : ResponseWriter) : ResponseWriter :=
  let w1 := Header_Del "Content-Length" w in
  let w2 := Header_Set "Content-Type" "text/plain; charset=utf-8" w1 in
  let w3 := Header_Set "X-Content-Type-Options" "nosniff" w2 in
  Write (msg +:+ newline) (WriteHeader code w3).

(** Everything a handler can read or change. *)
Record World := mkWorld {
  writer : ResponseWriter;
  request : Request;
  called : list string
}.

Definition on_writer (f : ResponseWriter → ResponseWriter) (σ : World) : World :=
  {| writer := f (writer σ); request := request σ; called := called σ |}.

Inductive outcome :=
  | Returned (σ : World)
  | Panicked (σ : World).

Definition world_of (o : outcome) : World :=
  match o with Returned σ => σ | Panicked σ => σ end.

(** [http.HandlerFunc]; [None] is the nil function value. *)
Definition HandlerFunc := option (World → outcome).

(** [h(w, r)]: calling a nil function is a runtime fault. *)
Definition invoke (h : HandlerFunc) (σ : World) : outcome :=
  match h with
  | Some f => f σ
  | None => Panicked σ
  end.

(** [type Middleware func(handlerFunc http.HandlerFunc) http.HandlerFunc] *)
Definition Middleware := HandlerFunc → HandlerFunc.

(** [http.NotFound], the multiplexer's answer when no pattern matches. *)
Definition NotFound (σ : World) : outcome :=
  Returned (on_writer (Error "404 page not found" StatusNotFound) σ).

(** ** application.go *)

Abbreviation methodHandlerMap := (gmap string HandlerFunc) (only parsing).

(** [*http.ServeMux], as far as the router uses it: the patterns passed to
    [HandleFunc], oldest first. *)
Abbreviation ServeMux := (list string) (only parsing).

Definition NewServeMux : ServeMux := [].

Definition HandleFunc (pattern : string) (m : ServeMux) : ServeMux := m ++ [pattern].

Record Application := mkApplication {
  mux : ServeMux;
  mws : list Middleware;
  pathMethodHandlerMap : gmap string methodHandlerMap
}.

Definition NewApplication (m : ServeMux) : Application :=
  {| mux := m; mws := []; pathMethodHandlerMap := ∅ |}.

Definition WithGlobalMiddlewares (gmws : list Middleware) (a : Application) : Application :=
  {| mux := mux a; mws := mws a ++ gmws;
     pathMethodHandlerMap := pathMethodHandlerMap a |}.

(** The loop of [applyMiddleware]: [for i := len(mws) - 1; i >= 0; i--]
    with [handler = mws[i](handler)] as its body.  The counter here is one
    more than the index of the source, so the body runs at index [j]; the
    index is always in range, and the [None] branch is never taken. *)
Fixpoint applyMiddleware_loop (ms : list Middleware) (i : nat) (handler : HandlerFunc)
  : HandlerFunc :=
  match i with
  | O => handler
  | S j =>
      match ms !! j with
      | Some m => applyMiddleware_loop ms j (m handler)
      | None => handler
      end
  end.

Definition applyMiddleware (handler : HandlerFunc) (ms : list Middleware) : HandlerFunc :=
  applyMiddleware_loop ms (length ms) handler.

Definition middleware (a : Application) (handler : HandlerFunc) (rmws : list Middleware)
  : HandlerFunc :=
  let result := applyMiddleware handler rmws in
  applyMiddleware result (mws a).

(** [a.pathMethodHandlerMap[path]]; a missing key reads as the nil map,
    which behaves as the empty map for lookups and [range]. *)
Definition table (a : Application) (path : string) : methodHandlerMap :=
  default ∅ (pathMethodHandlerMap a !! path).

Section Router.

(** The order in which [range] visits the keys of a map. *)
Variable range_order : list string → list string.

Definition keys (t : methodHandlerMap) : list string := (map_to_list t).*1.

Definition allowedMethods_step (methods m : string) : string :=
  (if decide (methods = "") then methods else methods +:+ ", ") +:+ m.

Definition allowedMethods (a : Application) (path : string) : string :=
  foldl allowedMethods_step "" (range_order (keys (table a path))).

(** The closure installed by [handle] for [path]. *)
Definition dispatch (a : Application) (path : string) (σ : World) : outcome :=
  let pMH := table a path in
  match pMH !! Method (request σ) with
  | Some h => invoke h σ
  | None =>
      let σ1 := on_writer (Header_Set "Allow" (allowedMethods a path)) σ in
      Returned (on_writer (Error "Method Not Allowed" StatusMethodNotAllowed) σ1)
  end.

(** [mux.ServeHTTP(w, r)] for a request that the multiplexer matched to
    [pattern]. *)
Definition ServeHTTP (a : Application) (pattern : string) (σ : World) : outcome :=
  if decide (pattern ∈ mux a) then dispatch a pattern σ else NotFound σ.

End Router.

(** [handle]: when [a.pathMethodHandlerMap[path]] is nil, store a new
    empty table and install the callback; then compose the handler and
    store it in the table of [path].  The table is a reference, so the
    store updates the table kept under [path] in place ([alter]); the key
    is present at that point. *)
Definition handle (method path : string) (handler : HandlerFunc)
    (rmws : list Middleware) (a : Application) : Application :=
  let a1 :=
    match pathMethodHandlerMap a !! path with
    | None =>
        {| mux := HandleFunc path (mux a); mws := mws a;
           pathMethodHandlerMap := <[path := ∅]> (pathMethodHandlerMap a) |}
    | Some _ => a
    end in
  {| mux := mux a1; mws := mws a1;
     pathMethodHandlerMap :=
       alter (λ t, <[method := middleware a1 handler rmws]> t) path
             (pathMethodHandlerMap a1) |}.

Definition Post path handler rmws a := handle MethodPost path handler rmws a.
Definition Get path handler rmws a := handle MethodGet path handler rmws a.
Definition Put path handler rmws a := handle MethodPut path handler rmws a.
Definition Patch path handler rmws a := handle MethodPatch path handler rmws a.
Definition Delete path handler rmws a := handle MethodDelete path handler rmws a.

(** The five entry points of the [WebApplication] interface. *)
Inductive verb := VPost | VGet | VPut | VPatch | VDelete.

Definition entry (v : verb)
  : string → HandlerFunc → list Middleware → Application → Application :=
  match v with
  | VPost => Post
  | VGet => Get
  | VPut => Put
  | VPatch => Patch
  | VDelete => Delete
  end.

Definition verb_method (v : verb) : string :=
  match v with
  | VPost => MethodPost
  | VGet => MethodGet
  | VPut => MethodPut
  | VPatch => MethodPatch
  | VDelete => MethodDelete
  end.

Definition canonical_methods : list string :=
  [MethodGet; MethodPost; MethodPut; MethodPatch; MethodDelete].

(** ** Programs against the public API *)

Inductive api_call :=
  | CallWithGlobalMiddlewares (gmws : list Middleware)
  | CallEntry (v : verb) (path : string) (handler : HandlerFunc) (rmws : list Middleware).

Definition exec (a : Application) (c : api_call) : Application :=
  match c with
  | CallWithGlobalMiddlewares gmws => WithGlobalMiddlewares gmws a
  | CallEntry v path handler rmws => entry v path handler rmws a
  end.

Definition run (cs : list api_call) (a : Application) : Application :=
  foldl exec a cs.

(** A router is reachable when a sequence of API calls builds it from a
    fresh router on a fresh multiplexer. *)
Definition reachable (a : Application) : Prop :=
  ∃ cs, a = run cs (NewApplication NewServeMux).

(** The methods that the calls [cs] registered for [path], in call order,
    repeated registrations included. *)
Fixpoint registered (cs : list api_call) (path : string) : list string :=
  match cs with
  | [] => []
  | CallEntry v p _ _ :: cs' =>
      if decide (p = path) then verb_method v :: registered cs' path
      else registered cs' path
  | CallWithGlobalMiddlewares _ :: cs' => registered cs' path
  end.

(** The paths that the calls [cs] registered something for, in call
    order, repeated registrations included. *)
Fixpoint registered_paths (cs : list api_call) : list string :=
  match cs with
  | [] => []
  | CallEntry _ p _ _ :: cs' => p :: registered_paths cs'
  | CallWithGlobalMiddlewares _ :: cs' => registered_paths cs'
  end.

(** ** The receiver as a pointer

    [WithGlobalMiddlewares] returns its receiver.  At this level a router
    lives at an address of a store and the method returns an address. *)
Definition WithGlobalMiddlewares_ref (p : positive) (gmws : list Middleware)
    (s : gmap positive Application) : option (positive * gmap positive Application) :=
  match s !! p with
  | Some a => Some (p, <[p := WithGlobalMiddlewares gmws a]> s)
  | None => None
  end.

(** ** Observable middleware, after the test suite

    [passing name] is [mw1]/[mw2]/[globalMw] of the tests: it appends its
    name to the log and calls [next].  [interrupting name code] is
    [interruptMw]: it appends its name, writes a status and returns
    without calling [next].  [logging name] is the terminal handler that
    appends its name, and [stringHandler body] writes [body]. *)
Definition record (name : string) (σ : World) : World :=
  {| writer := writer σ; request := request σ; called := called σ ++ [name] |}.

Definition passing (name : string) : Middleware :=
  λ next, Some (λ σ, invoke next (record name σ)).

Definition interrupting (name : string) (code : Z) : Middleware :=
  λ _, Some (λ σ, Returned (on_writer (WriteHeader code) (record name σ))).

Definition logging (name : string) : HandlerFunc :=
  Some (λ σ, Returned (record name σ)).

Definition stringHandler (body : string) : HandlerFunc :=
  Some (λ σ, Returned (on_writer (Write body) σ)).

Inductive layer :=
  | Pass (name : string)
  | Stop (name : string) (code : Z).

Definition layer_mw (l : layer) : Middleware :=
  match l with
  | Pass name => passing name
  | Stop name code => interrupting name code
  end.

(** The log a chain of layers around [logging name] is expected to leave:
    every layer in order up to and including the first one that stops,
    and the terminal handler only if none stops. *)
Fixpoint chain_log (ls : list layer) (name : string) : list string :=
  match ls with
  | [] => [name]
  | Pass n :: ls' => n :: chain_log ls' name
  | Stop n _ :: _ => [n]
  end.

(** Nesting, first element outermost: [nest [m1; m2] h = m1 (m2 h)]. *)
Definition nest (ms : list Middleware) (h : HandlerFunc) : HandlerFunc :=
  foldr (λ m k, m k) h ms.

(** A request as [httptest.NewRequest(method, path, nil)] with a fresh
    recorder and an empty log. *)
Definition NewRequest (method path : string) : Request :=
  {| Method := method; URLPath := path; ReqHeader := ∅ |}.

Definition fresh (method path : string) : World :=
  {| writer := NewRecorder; request := NewRequest method path; called := [] |}.

(** The 405 response written on a fresh recorder. *)
Definition method_not_allowed (allow : string) : ResponseWriter :=
  {| Code := 405; wroteHeader := true;
     HeaderMap := <["X-Content-Type-Options" := "nosniff"]>
                    (<["Content-Type" := "text/plain; charset=utf-8"]>
                       (<["Allow" := allow]> ∅));
     Body := "Method Not Allowed" +:+ newline |}.

(** The log after the middleware named [names] ran in that order. *)
Definition record_all (names : list string) (σ : World) : World :=
  {| writer := writer σ; request := request σ; called := called σ ++ names |}.

(** ASCII upper-casing, to say that two method names differ in letter
    case only. *)
Definition upper_ascii (c : ascii) : ascii :=
  let n := nat_of_ascii c in
  if (97 <=? n)%nat && (n <=? 122)%nat then ascii_of_nat (n - 32) else c.

Fixpoint to_upper (s : string) : string :=
  match s with
  | EmptyString => EmptyString
  | String c s' => String (upper_ascii c) (to_upper s')
  end.

(** The multiplexer holds no pattern twice, and holds exactly the keys of
    the route table. *)
Definition installed_ok (a : Application) : Prop :=
  NoDup (mux a) ∧ ∀ path, path ∈ mux a ↔ is_Some (pathMethodHandlerMap a !! path).

(** ** Routers of the test suite *)

Definition app0 : Application := NewApplication NewServeMux.

(** [TestApplication_AllowedMethodsHeader] *)
Definition foo_calls : list api_call :=
  [CallEntry VGet "/foo" (stringHandler "bar") [];
   CallEntry VPost "/foo" (stringHandler "baz") []].

(** [TestApplication_HandleMethods] *)
Definition test_calls : list api_call :=
  [CallEntry VGet "/test" (stringHandler "GET") [];
   CallEntry VPost "/test" (stringHandler "POST") [];
   CallEntry VPut "/test" (stringHandler "PUT") [];
   CallEntry VPatch "/test" (stringHandler "PATCH") [];
   CallEntry VDelete "/test" (stringHandler "DELETE") []].

(** [TestApplication_GlobalMiddleware]: the router after
    [WithGlobalMiddlewares(globalMw)]. *)
Definition global_app : Application := WithGlobalMiddlewares [passing "global"] app0.

(** ** Further vocabulary *)

(** [mw] of [BenchmarkApplication_WithMiddleware]: it calls [next] and
    does nothing else. *)
Definition transparent : Middleware :=
  λ next, Some (λ σ, invoke next σ).

(** The middleware that the calls [cs] passed to [WithGlobalMiddlewares],
    in call order. *)
Fixpoint globals_of (cs : list api_call) : list Middleware :=
  match cs with
  | [] => []
  | CallWithGlobalMiddlewares gmws :: cs' => gmws ++ globals_of cs'
  | CallEntry _ _ _ _ :: cs' => globals_of cs'
  end.

(** The call registers a handler for [path] under [method]. *)
Definition registers (path method : string) (c : api_call) : Prop :=
  match c with
  | CallEntry v p _ _ => p = path ∧ verb_method v = method
  | CallWithGlobalMiddlewares _ => False
  end.

(** A list of names without its leading empty names. *)
Fixpoint drop_empty (ks : list string) : list string :=
  match ks with
  | [] => []
  | k :: ks' => if decide (k = "") then drop_empty ks' else ks
  end.

(** [strings.Contains(s, m)], as the tests apply it to the [Allow]
    header. *)
Definition Contains (s m : string) : Prop :=
  ∃ pre post : string, s = pre +:+ m +:+ post.

(** ** Registration step by step, with its panics

    The definitions above describe calls that return.  [handle] does its
    work in three steps, and a panic between them leaves the router as
    the steps before have made it: the table of a new path is stored
    first, then the callback is handed to the multiplexer, which panics
    when it rejects the pattern, then the handler is composed, which
    panics when a middleware value is nil or panics while it wraps, and
    only then the handler is stored.  A caller that recovers from the
    panic goes on with that router.  This module follows the source at
    that grain.  What the multiplexer accepts is [net/http]'s rule and is
    the variable [accepts]. *)
Module Steps.

(** A value of the type [Middleware]: the nil function, or a function
    that returns the wrapping handler or panics. *)
Inductive MiddlewareValue :=
  | NilMiddleware
  | Wrapper (wrap : HandlerFunc → option HandlerFunc).

(** A middleware that always returns. *)
Definition total (m : Middleware) : MiddlewareValue :=
  Wrapper (λ h, Some (m h)).

Record Application := mkApplication {
  mux : list string;
  mws : list MiddlewareValue;
  pathMethodHandlerMap : gmap string (gmap string HandlerFunc)
}.

(** How a call ends, and the router it leaves behind. *)
Inductive completion :=
  | Returns (a : Application)
  | Panics (a : Application).

Definition after (c : completion) : Application :=
  match c with Returns a => a | Panics a => a end.

Definition returned (c : completion) : bool :=
  match c with Returns _ => true | Panics _ => false end.

Definition NewApplication (m : list string) : Application :=
  {| mux := m; mws := []; pathMethodHandlerMap := ∅ |}.

Definition WithGlobalMiddlewares (gmws : list MiddlewareValue) (a : Application)
  : Application :=
  {| mux := mux a; mws := mws a ++ gmws;
     pathMethodHandlerMap := pathMethodHandlerMap a |}.

(** [mws[i](handler)]; [None] is a panic. *)
Definition wrap_with (m : MiddlewareValue) (handler : HandlerFunc) : option HandlerFunc :=
  match m with
  | NilMiddleware => None
  | Wrapper wrap => wrap handler
  end.

Fixpoint applyMiddleware_loop (ms : list MiddlewareValue) (i : nat)
    (handler : HandlerFunc) : option HandlerFunc :=
  match i with
  | O => Some handler
  | S j =>
      match ms !! j with
      | Some m =>
          match wrap_with m handler with
          | Some handler' => applyMiddleware_loop ms j handler'
          | None => None
          end
      | None => Some handler
      end
  end.

Definition applyMiddleware (handler : HandlerFunc) (ms : list MiddlewareValue)
  : option HandlerFunc :=
  applyMiddleware_loop ms (length ms) handler.

Definition middleware (a : Application) (handler : HandlerFunc)
    (rmws : list MiddlewareValue) : option HandlerFunc :=
  match applyMiddleware handler rmws with
  | Some result => applyMiddleware result (mws a)
  | None => None
  end.

Definition table (a : Application) (path : string) : gmap string HandlerFunc :=
  default ∅ (pathMethodHandlerMap a !! path).

Inductive api_call :=
  | CallWithGlobalMiddlewares (gmws : list MiddlewareValue)
  | CallEntry (v : verb) (path : string) (handler : HandlerFunc)
      (rmws : list MiddlewareValue).

Section Mux.

(** [accepts held pattern]: the multiplexer that holds the patterns
    [held] takes [pattern]; otherwise [HandleFunc] panics. *)
Variable accepts : list string → string → bool.

Definition HandleFunc (pattern : string) (m : list string) : option (list string) :=
  if accepts m pattern then Some (m ++ [pattern]) else None.

(** Lines 28 to 40 of [handle]: nothing to do for a known path; for a
    new one, the empty table is stored and then the callback installed. *)
Definition install (path : string) (a : Application) : completion :=
  match pathMethodHandlerMap a !! path with
  | Some _ => Returns a
  | None =>
      let a0 := {| mux := mux a; mws := mws a;
                   pathMethodHandlerMap := <[path := ∅]> (pathMethodHandlerMap a) |} in
      match HandleFunc path (mux a0) with
      | Some m => Returns {| mux := m; mws := mws a0;
                             pathMethodHandlerMap := pathMethodHandlerMap a0 |}
      | None => Panics a0
      end
  end.

(** [handle]: [install], then line 42, which composes before it stores. *)
Definition handle (method path : string) (handler : HandlerFunc)
    (rmws : list MiddlewareValue) (a : Application) : completion :=
  match install path a with
  | Panics a0 => Panics a0
  | Returns a1 =>
      match middleware a1 handler rmws with
      | Some composed =>
          Returns {| mux := mux a1; mws := mws a1;
                     pathMethodHandlerMap :=
                       alter (λ t, <[method := composed]> t) path
                             (pathMethodHandlerMap a1) |}
      | None => Panics a1
      end
  end.

Definition Post path handler rmws a := handle MethodPost path handler rmws a.
Definition Get path handler rmws a := handle MethodGet path handler rmws a.
Definition Put path handler rmws a := handle MethodPut path handler rmws a.
Definition Patch path handler rmws a := handle MethodPatch path handler rmws a.
Definition Delete path handler rmws a := handle MethodDelete path handler rmws a.

Definition entry (v : verb)
  : string → HandlerFunc → list MiddlewareValue → Application → completion :=
  match v with
  | VPost => Post
  | VGet => Get
  | VPut => Put
  | VPatch => Patch
  | VDelete => Delete
  end.

Definition exec (a : Application) (c : api_call) : completion :=
  match c with
  | CallWithGlobalMiddlewares gmws => Returns (WithGlobalMiddlewares gmws a)
  | CallEntry v path handler rmws => entry v path handler rmws a
  end.

(** The router after the calls [cs], the caller recovering from every
    panic and going on. *)
Definition run (cs : list api_call) (a : Application) : Application :=
  foldl (λ a c, after (exec a c)) a cs.

(** Every call of [cs] returns. *)
Fixpoint completes (cs : list api_call) (a : Application) : Prop :=
  match cs with
  | [] => True
  | c :: cs' => returned (exec a c) = true ∧ completes cs' (after (exec a c))
  end.

(** The methods registered for [path] by the calls of [cs] that returned,
    in call order. *)
Fixpoint registered (cs : list api_call) (a : Application) (path : string)
  : list string :=
  match cs with
  | [] => []
  | c :: cs' =>
      match c with
      | CallEntry v p _ _ =>
          if decide (p = path) then
            if returned (exec a c) then verb_method v :: registered cs' (after (exec a c)) path
            else registered cs' (after (exec a c)) path
          else registered cs' (after (exec a c)) path
      | CallWithGlobalMiddlewares _ => registered cs' (after (exec a c)) path
      end
  end.

End Mux.

Section Callback.

Variable range_order : list string → list string.

Definition allowedMethods (a : Application) (path : string) : string :=
  foldl allowedMethods_step "" (range_order (keys (table a path))).

(** The closure of lines 31 to 39. *)
Definition dispatch (a : Application) (path : string) (σ : World) : outcome :=
  let pMH := table a path in
  match pMH !! Method (request σ) with
  | Some h => invoke h σ
  | None =>
      let σ1 := on_writer (Header_Set "Allow" (allowedMethods a path)) σ in
      Returned (on_writer (Error "Method Not Allowed" StatusMethodNotAllowed) σ1)
  end.

End Callback.

(** A multiplexer that takes every pattern. *)
Definition accepts_all (held : list string) (pattern : string) : bool := true.

(** A multiplexer that takes every pattern but the empty one. *)
Definition accepts_nonempty (held : list string) (pattern : string) : bool :=
  bool_decide (pattern ≠ "").

(** [Get("/x", H, A, nil)] on a new router. *)
Definition nil_middleware_call : api_call :=
  CallEntry VGet "/x" (logging "H") [total (passing "A"); NilMiddleware].

End Steps.

(** The multiplexer holds no pattern twice and only keys of the route
    table; this holds after every call, returned or not. *)
Definition Steps_installed_ok (a : Steps.Application) : Prop :=
  NoDup (Steps.mux a)
  ∧ ∀ path, path ∈ Steps.mux a → is_Some (Steps.pathMethodHandlerMap a !! path).

(** After calls that all returned, every key of the route table has its
    callback and a table that is not empty. *)
Definition Steps_complete_ok (a : Steps.Application) : Prop :=
  ∀ path t, Steps.pathMethodHandlerMap a !! path = Some t →
            path ∈ Steps.mux a ∧ t ≠ ∅.

(** The calls of [TestApplication_AllowedMethodsHeader], as values of the
    step-by-step model. *)
Definition Steps_foo_calls : list Steps.api_call :=
  [Steps.CallEntry VGet "/foo" (stringHandler "bar") [];
   Steps.CallEntry VPost "/foo" (stringHandler "baz") []].

(** A router of the first model, seen as one of the step-by-step model. *)
Definition Steps_of (a : Application) : Steps.Application :=
  {| Steps.mux := mux a;
     Steps.mws := Steps.total <$> mws a;
     Steps.pathMethodHandlerMap := pathMethodHandlerMap a |}.

(** * Properties *)

(** ** Middleware composition *)

Lemma applyMiddleware_loop_take (ms : list Middleware) (i : nat) (h : HandlerFunc) :
  (i ≤ length ms)%nat →
  applyMiddleware_loop ms i h = nest (take i ms) h.
Proof.
  revert h. induction i as [|j IH]; intros h Hi; cbn [applyMiddleware_loop].
  - done.
  - destruct (lookup_lt_is_Some_2 ms j) as [m Hm]; [lia|].
    change (HandlerFunc → HandlerFunc) with Middleware.
    rewrite Hm, IH by lia.
    rewrite (take_S_r ms j m Hm). unfold nest. by rewrite foldr_app.
Qed.

Lemma applyMiddleware_nest (h : HandlerFunc) (ms : list Middleware) :
  applyMiddleware h ms = nest ms h.
Proof.
  unfold applyMiddleware.
  rewrite applyMiddleware_loop_take by lia. by rewrite firstn_all.
Qed.

Lemma nest_app (ms1 ms2 : list Middleware) (h : HandlerFunc) :
  nest (ms1 ++ ms2) h = nest ms1 (nest ms2 h).
Proof. unfold nest. by rewrite foldr_app. Qed.

Lemma middleware_nest (a : Application) (h : HandlerFunc) (rmws : list Middleware) :
  middleware a h rmws = nest (mws a ++ rmws) h.
Proof. unfold middleware. by rewrite !applyMiddleware_nest, nest_app. Qed.

Lemma chain_log_called (ls : list layer) (name : string) (σ : World) :
  called (world_of (invoke (nest (layer_mw <$> ls) (logging name)) σ))
  = called σ ++ chain_log ls name.
Proof.
  revert σ. induction ls as [|[n|n c] ls IH]; intros σ; simpl.
  - done.
  - rewrite IH. simpl. by rewrite <- app_assoc.
  - done.
Qed.

(** ** One registration *)

Lemma handle_mws method path h rmws a :
  mws (handle method path h rmws a) = mws a.
Proof. unfold handle. by destruct (pathMethodHandlerMap a !! path). Qed.

Lemma handle_mux method path h rmws a :
  mux (handle method path h rmws a)
  = match pathMethodHandlerMap a !! path with
    | None => mux a ++ [path]
    | Some _ => mux a
    end.
Proof. unfold handle. by destruct (pathMethodHandlerMap a !! path). Qed.

Lemma handle_lookup method path h rmws a :
  pathMethodHandlerMap (handle method path h rmws a) !! path
  = Some (<[method := nest (mws a ++ rmws) h]> (table a path)).
Proof.
  unfold handle, table.
  destruct (pathMethodHandlerMap a !! path) as [t|] eqn:E; simpl;
    rewrite lookup_alter_eq, middleware_nest; simpl.
  - by rewrite E.
  - by rewrite lookup_insert_eq.
Qed.

Lemma handle_lookup_ne method path h rmws a path' :
  path ≠ path' →
  pathMethodHandlerMap (handle method path h rmws a) !! path'
  = pathMethodHandlerMap a !! path'.
Proof.
  intros Hne. unfold handle.
  destruct (pathMethodHandlerMap a !! path) as [t|] eqn:E; simpl;
    rewrite lookup_alter_ne by done; [done|].
  by rewrite lookup_insert_ne.
Qed.

Lemma handle_table method path h rmws a :
  table (handle method path h rmws a) path
  = <[method := nest (mws a ++ rmws) h]> (table a path).
Proof. unfold table at 1. by rewrite handle_lookup. Qed.

Lemma handle_table_ne method path h rmws a path' :
  path ≠ path' → table (handle method path h rmws a) path' = table a path'.
Proof. intros Hne. unfold table. by rewrite handle_lookup_ne. Qed.

Lemma handle_installed method path h rmws a :
  path ∈ mux a ↔ is_Some (pathMethodHandlerMap a !! path) →
  path ∈ mux (handle method path h rmws a).
Proof.
  intros Hinv. rewrite handle_mux.
  destruct (pathMethodHandlerMap a !! path) eqn:E.
  - apply Hinv. eauto.
  - apply elem_of_app. right. by apply list_elem_of_singleton.
Qed.

Lemma entry_handle v path h rmws a :
  entry v path h rmws a = handle (verb_method v) path h rmws a.
Proof. by destruct v. Qed.

Lemma verb_method_canonical v : verb_method v ∈ canonical_methods.
Proof. destruct v; unfold canonical_methods; set_solver. Qed.

(** ** Joining method names *)

Lemma append_assoc (s1 s2 s3 : string) : (s1 +:+ s2) +:+ s3 = s1 +:+ s2 +:+ s3.
Proof.
  induction s1 as [|c s1 IH]; [done|].
  change (String c ((s1 +:+ s2) +:+ s3) = String c (s1 +:+ s2 +:+ s3)).
  by f_equal.
Qed.

Lemma append_nonempty_l (s1 s2 : string) : s1 ≠ "" → s1 +:+ s2 ≠ "".
Proof.
  destruct s1 as [|c s1]; [done|]. intros _.
  change (String c (s1 +:+ s2) ≠ ""). discriminate.
Qed.

Lemma concat_cons2 (sep x y : string) (l : list string) :
  String.concat sep (x :: y :: l) = x +:+ sep +:+ String.concat sep (y :: l).
Proof. done. Qed.

Lemma allowedMethods_loop_from (acc : string) (ks : list string) :
  acc ≠ "" →
  foldl allowedMethods_step acc ks = String.concat ", " (acc :: ks).
Proof.
  revert acc. induction ks as [|k ks IH]; intros acc Hacc; [done|].
  cbn [foldl]. rewrite IH.
  - unfold allowedMethods_step. rewrite decide_False by done.
    destruct ks as [|k' ks].
    + change (String.concat ", " [acc; k]) with (acc +:+ ", " +:+ k).
      by rewrite append_assoc.
    + rewrite !concat_cons2. by rewrite !append_assoc.
  - unfold allowedMethods_step. rewrite decide_False by done.
    by apply append_nonempty_l, append_nonempty_l.
Qed.

(** On non-empty names the loop of [allowedMethods] joins with [", "]. *)
Lemma allowedMethods_loop_concat (ks : list string) :
  (∀ k, k ∈ ks → k ≠ "") →
  foldl allowedMethods_step "" ks = String.concat ", " ks.
Proof.
  destruct ks as [|k ks]; intros Hne; [done|].
  cbn [foldl]. unfold allowedMethods_step at 2. rewrite decide_True by done.
  change ("" +:+ k) with k. apply allowedMethods_loop_from, Hne. set_solver.
Qed.

Lemma concat_nonempty (sep : string) (ks : list string) :
  ks ≠ [] → (∀ k, k ∈ ks → k ≠ "") → String.concat sep ks ≠ "".
Proof.
  destruct ks as [|k ks]; intros Hnil Hne; [done|].
  assert (k ≠ "") by (apply Hne; set_solver).
  destruct ks; [done|]. rewrite concat_cons2. by apply append_nonempty_l.
Qed.

Lemma canonical_nonempty (m : string) : m ∈ canonical_methods → m ≠ "".
Proof.
  unfold canonical_methods. rewrite !elem_of_cons, elem_of_nil.
  intros [->|[->|[->|[->|[->|[]]]]]]; done.
Qed.

Lemma elem_of_keys (t : gmap string HandlerFunc) (m : string) :
  m ∈ keys t ↔ is_Some (t !! m).
Proof.
  unfold keys. rewrite list_elem_of_fmap. split.
  - intros [[k h] [-> Hin]]. apply elem_of_map_to_list in Hin. eauto.
  - intros [h Hh]. exists (m, h). split; [done|]. by apply elem_of_map_to_list.
Qed.

Lemma NoDup_keys (t : gmap string HandlerFunc) : NoDup (keys t).
Proof. apply NoDup_fst_map_to_list. Qed.

(** ** Histories *)

Lemma registered_app cs1 cs2 path :
  registered (cs1 ++ cs2) path = registered cs1 path ++ registered cs2 path.
Proof.
  induction cs1 as [|[g|v p h r] cs1 IH]; simpl; [done|done|].
  case_decide; [|done]. by rewrite IH.
Qed.

Lemma registered_paths_app cs1 cs2 :
  registered_paths (cs1 ++ cs2) = registered_paths cs1 ++ registered_paths cs2.
Proof.
  induction cs1 as [|[g|v p h r] cs1 IH]; simpl; [done|done|]. by rewrite IH.
Qed.

Lemma registered_canonical cs path m :
  m ∈ registered cs path → m ∈ canonical_methods.
Proof.
  induction cs as [|[g|v p h r] cs IH]; simpl; [by rewrite elem_of_nil|done|].
  case_decide; [|done]. rewrite elem_of_cons.
  intros [->|?]; [apply verb_method_canonical|auto].
Qed.

Lemma elem_of_registered_paths cs path :
  path ∈ registered_paths cs ↔ registered cs path ≠ [].
Proof.
  induction cs as [|[g|v p h r] cs IH]; simpl.
  - by rewrite elem_of_nil.
  - done.
  - rewrite elem_of_cons, IH. case_decide as Hp.
    + split; [done|]. intros _. by left.
    + split; [|by right]. by intros [->|?].
Qed.

Lemma run_snoc cs c a : run (cs ++ [c]) a = exec (run cs a) c.
Proof. unfold run. by rewrite foldl_snoc. Qed.

(** ** The multiplexer and the route table agree *)

Lemma installed_ok_new : installed_ok (NewApplication NewServeMux).
Proof.
  split; [constructor|]. intros path. simpl. unfold NewServeMux.
  rewrite elem_of_nil, lookup_empty. split; [done|]. by intros [? ?].
Qed.

Lemma handle_is_Some method path h rmws a path' :
  is_Some (pathMethodHandlerMap (handle method path h rmws a) !! path')
  ↔ path' = path ∨ is_Some (pathMethodHandlerMap a !! path').
Proof.
  destruct (decide (path = path')) as [<-|Hne].
  - rewrite handle_lookup. split; [by left|eauto].
  - rewrite handle_lookup_ne by done. split; [by right|]. by intros [->|?].
Qed.

Lemma installed_ok_handle method path h rmws a :
  installed_ok a → installed_ok (handle method path h rmws a).
Proof.
  intros [Hnd Hin]. split.
  - rewrite handle_mux. destruct (pathMethodHandlerMap a !! path) eqn:E; [done|].
    apply NoDup_app. split_and!; [done| |apply NoDup_singleton].
    intros x Hx ->%list_elem_of_singleton.
    apply Hin in Hx. rewrite E in Hx. by destruct Hx.
  - intros path'. rewrite handle_is_Some, handle_mux.
    destruct (pathMethodHandlerMap a !! path) eqn:E.
    + rewrite Hin. split; [by right|]. intros [->|?]; [|done]. by rewrite E.
    + rewrite elem_of_app, list_elem_of_singleton, Hin. tauto.
Qed.

Lemma installed_ok_exec a c : installed_ok a → installed_ok (exec a c).
Proof.
  destruct c as [g|v p h r]; simpl; [done|].
  rewrite entry_handle. apply installed_ok_handle.
Qed.

Lemma installed_ok_run cs a : installed_ok a → installed_ok (run cs a).
Proof.
  revert a. induction cs as [|c cs IH]; intros a Ha; [done|].
  apply IH. by apply installed_ok_exec.
Qed.

Lemma reachable_installed_ok a : reachable a → installed_ok a.
Proof. intros [cs ->]. apply installed_ok_run, installed_ok_new. Qed.

(** ** The route table records the history *)

Lemma run_routes cs path :
  is_Some (pathMethodHandlerMap (run cs (NewApplication NewServeMux)) !! path)
  ↔ path ∈ registered_paths cs.
Proof.
  induction cs as [|c cs IH] using rev_ind.
  - simpl. rewrite lookup_empty, elem_of_nil. split; [by intros [? ?]|done].
  - rewrite run_snoc, registered_paths_app, elem_of_app.
    destruct c as [g|v p h r]; simpl.
    + rewrite IH, elem_of_nil. tauto.
    + rewrite entry_handle, handle_is_Some, IH, list_elem_of_singleton. tauto.
Qed.

Lemma run_tables cs path m :
  is_Some (table (run cs (NewApplication NewServeMux)) path !! m)
  ↔ m ∈ registered cs path.
Proof.
  induction cs as [|c cs IH] using rev_ind.
  - unfold table. simpl. rewrite !lookup_empty. simpl.
    rewrite lookup_empty, elem_of_nil. split; [by intros [? ?]|done].
  - rewrite run_snoc, registered_app, elem_of_app.
    destruct c as [g|v p h r]; simpl.
    + rewrite elem_of_nil. unfold table in *. simpl. rewrite IH. tauto.
    + rewrite entry_handle. case_decide as Hp.
      * subst p. rewrite handle_table, lookup_insert_is_Some', IH.
        rewrite list_elem_of_singleton. split; intros [?|?]; auto.
      * rewrite handle_table_ne, IH, elem_of_nil by done. tauto.
Qed.

Lemma run_keys cs path m :
  m ∈ keys (table (run cs (NewApplication NewServeMux)) path)
  ↔ m ∈ registered cs path.
Proof. by rewrite elem_of_keys, run_tables. Qed.

Lemma run_keys_nonempty cs path m :
  m ∈ keys (table (run cs (NewApplication NewServeMux)) path) → m ≠ "".
Proof.
  rewrite run_keys. intros Hm.
  eapply canonical_nonempty, registered_canonical, Hm.
Qed.

(** ** Dispatch *)

Section Dispatch.

Variable range_order : list string → list string.

Lemma ServeHTTP_found a path σ h :
  path ∈ mux a →
  table a path !! Method (request σ) = Some h →
  ServeHTTP range_order a path σ = invoke h σ.
Proof.
  intros Hin Hh. unfold ServeHTTP, dispatch.
  rewrite decide_True by done. simpl. by rewrite Hh.
Qed.

Lemma ServeHTTP_missing a path σ :
  path ∈ mux a →
  table a path !! Method (request σ) = None →
  ServeHTTP range_order a path σ
  = Returned (on_writer (Error "Method Not Allowed" StatusMethodNotAllowed)
                (on_writer (Header_Set "Allow" (allowedMethods range_order a path)) σ)).
Proof.
  intros Hin Hh. unfold ServeHTTP, dispatch.
  rewrite decide_True by done. simpl. by rewrite Hh.
Qed.

Lemma ServeHTTP_handle method path h rmws a σ :
  installed_ok a →
  Method (request σ) = method →
  ServeHTTP range_order (handle method path h rmws a) path σ
  = invoke (nest (mws a ++ rmws) h) σ.
Proof.
  intros [_ Hin] Hm. apply ServeHTTP_found.
  - by apply handle_installed.
  - by rewrite handle_table, Hm, lookup_insert_eq.
Qed.

(** C1: after [handle] (and so after each of [Get], [Post], [Put],
    [Patch], [Delete], which are [handle] at their method), a request
    that the multiplexer matches to [path] and whose method is the
    registered one runs the handler nested as
    [g1 (g2 (.. (r1 (r2 (.. handler)))))], the global middleware [g_i]
    present at registration outside the route middleware [r_j], the first
    element of each list outermost.  For middleware that log their name
    and either call [next] or do not, the log shows the global names, then
    the route names, then the terminal handler, cut after the first
    middleware that does not call [next]. *)
Theorem C1_chain_order (a : Application) (method path : string)
    (handler : HandlerFunc) (rmws : list Middleware) (σ : World) :
  reachable a →
  Method (request σ) = method →
  let a' := handle method path handler rmws a in
  ServeHTTP range_order a' path σ = invoke (nest (mws a ++ rmws) handler) σ
  ∧ (∀ v, verb_method v = method → entry v path handler rmws a = a')
  ∧ (∀ gl rl name,
       mws a = layer_mw <$> gl → rmws = layer_mw <$> rl → handler = logging name →
       called (world_of (ServeHTTP range_order a' path σ))
       = called σ ++ chain_log (gl ++ rl) name).
Proof.
  intros Hr Hm a'.
  assert (Hserve : ServeHTTP range_order a' path σ
                   = invoke (nest (mws a ++ rmws) handler) σ).
  { apply ServeHTTP_handle; [by apply reachable_installed_ok|done]. }
  split_and!.
  - done.
  - intros v <-. apply entry_handle.
  - intros gl rl name Hg -> ->. rewrite Hserve, Hg, <- fmap_app.
    apply chain_log_called.
Qed.

(** Registering twice for the same path and method leaves the router as
    if only the second registration had happened. *)
Lemma handle_handle method path h1 r1 h2 r2 a :
  handle method path h2 r2 (handle method path h1 r1 a) = handle method path h2 r2 a.
Proof.
  assert (Hmux : mux (handle method path h2 r2 (handle method path h1 r1 a))
                 = mux (handle method path h2 r2 a)).
  { rewrite !handle_mux, handle_lookup.
    by destruct (pathMethodHandlerMap a !! path). }
  assert (Hmws : mws (handle method path h2 r2 (handle method path h1 r1 a))
                 = mws (handle method path h2 r2 a)).
  { by rewrite !handle_mws. }
  assert (Hmap : pathMethodHandlerMap (handle method path h2 r2 (handle method path h1 r1 a))
                 = pathMethodHandlerMap (handle method path h2 r2 a)).
  { apply map_eq. intros p. destruct (decide (path = p)) as [<-|Hne].
    - rewrite !handle_lookup, handle_table, handle_mws. by rewrite insert_insert_eq.
    - by rewrite !handle_lookup_ne. }
  destruct (handle method path h2 r2 (handle method path h1 r1 a)),
           (handle method path h2 r2 a).
  simpl in *. by subst.
Qed.

(** C4: a second registration for the same path and method replaces the
    first.  [handle] is total; the second call hands nothing to the
    multiplexer, which would reject a pattern it already holds; the
    resulting router is the one that the second registration alone would
    have built; and a request with that method runs the chain of [h2],
    whatever [h1] and its middleware were. *)
Theorem C4_last_registration_wins (a : Application) (p m : string)
    (h1 h2 : HandlerFunc) (r1 r2 : list Middleware) (σ : World) :
  reachable a →
  Method (request σ) = m →
  let a1 := handle m p h1 r1 a in
  let a2 := handle m p h2 r2 a1 in
  mux a2 = mux a1
  ∧ a2 = handle m p h2 r2 a
  ∧ table a2 p !! m = Some (nest (mws a ++ r2) h2)
  ∧ ServeHTTP range_order a2 p σ = invoke (nest (mws a ++ r2) h2) σ.
Proof.
  intros Hr Hm a1 a2. split_and!.
  - unfold a2, a1. by rewrite handle_mux, handle_lookup.
  - apply handle_handle.
  - unfold a2, a1. by rewrite handle_handle, handle_table, lookup_insert_eq.
  - unfold a2, a1. rewrite handle_handle.
    apply ServeHTTP_handle; [by apply reachable_installed_ok|done].
Qed.

(** C5: with two methods registered on one path, in either order, a
    request with the first method runs the chain built for it.  The
    outcome is a function of that chain alone, whatever the handler and
    middleware of the other method are; in particular, when the chain of
    the first method logs, the log holds its names and nothing else. *)
Theorem C5_method_isolation (a : Application) (p m1 m2 : string)
    (h1 h2 : HandlerFunc) (r1 r2 : list Middleware) (σ : World) :
  reachable a →
  m1 ≠ m2 →
  Method (request σ) = m1 →
  let after := handle m2 p h2 r2 (handle m1 p h1 r1 a) in
  let before := handle m1 p h1 r1 (handle m2 p h2 r2 a) in
  ServeHTTP range_order after p σ = invoke (nest (mws a ++ r1) h1) σ
  ∧ ServeHTTP range_order before p σ = invoke (nest (mws a ++ r1) h1) σ
  ∧ (∀ gl rl name,
       mws a = layer_mw <$> gl → r1 = layer_mw <$> rl → h1 = logging name →
       called (world_of (ServeHTTP range_order after p σ))
       = called σ ++ chain_log (gl ++ rl) name
       ∧ called (world_of (ServeHTTP range_order before p σ))
         = called σ ++ chain_log (gl ++ rl) name).
Proof.
  intros Hr Hne Hm after before.
  pose proof (reachable_installed_ok a Hr) as Hok.
  assert (Hafter : ServeHTTP range_order after p σ
                   = invoke (nest (mws a ++ r1) h1) σ).
  { apply ServeHTTP_found.
    - apply handle_installed, installed_ok_handle, Hok.
    - unfold after. rewrite handle_table, Hm, lookup_insert_ne by done.
      by rewrite handle_table, lookup_insert_eq. }
  assert (Hbefore : ServeHTTP range_order before p σ
                    = invoke (nest (mws a ++ r1) h1) σ).
  { unfold before.
    rewrite ServeHTTP_handle by (try apply installed_ok_handle; done).
    by rewrite handle_mws. }
  split_and!; [done|done|].
  intros gl rl name Hg -> ->.
  rewrite Hafter, Hbefore, Hg, <- fmap_app. split; apply chain_log_called.
Qed.

End Dispatch.

(** ** Responses *)

Lemma nest_passing (names : list string) (h : HandlerFunc) (σ : World) :
  invoke (nest (passing <$> names) h) σ = invoke h (record_all names σ).
Proof.
  revert σ. induction names as [|n names IH]; intros σ.
  - simpl. f_equal. destruct σ. unfold record_all. simpl. by rewrite app_nil_r.
  - simpl. rewrite IH. f_equal. unfold record_all, record. simpl.
    by rewrite <- app_assoc.
Qed.

Lemma Error_unwritten (msg : string) (code : Z) (w : ResponseWriter) :
  wroteHeader w = false →
  Error msg code w
  = {| Code := code; wroteHeader := true;
       HeaderMap := <["X-Content-Type-Options" := "nosniff"]>
                      (<["Content-Type" := "text/plain; charset=utf-8"]>
                         (delete "Content-Length" (HeaderMap w)));
       Body := Body w +:+ msg +:+ newline |}.
Proof. intros Hw. unfold Error, Write, WriteHeader. simpl. by rewrite Hw. Qed.

Lemma method_not_allowed_written (allow : string) (σ : World) :
  wroteHeader (writer σ) = false →
  let σ' := on_writer (Error "Method Not Allowed" StatusMethodNotAllowed)
              (on_writer (Header_Set "Allow" allow) σ) in
  Code (writer σ') = 405
  ∧ HeaderMap (writer σ') !! "Allow" = Some allow
  ∧ Body (writer σ') = Body (writer σ) +:+ "Method Not Allowed" +:+ newline
  ∧ called σ' = called σ
  ∧ request σ' = request σ.
Proof.
  intros Hw σ'. unfold σ'. cbn [on_writer writer called request].
  rewrite Error_unwritten by done. cbn [Code HeaderMap Body Header_Set].
  split_and!; try done.
  rewrite !lookup_insert_ne by done. rewrite lookup_delete_ne by done.
  by rewrite lookup_insert_eq.
Qed.

Lemma to_upper_canonical (m : string) : m ∈ canonical_methods → to_upper m = m.
Proof.
  unfold canonical_methods. rewrite !elem_of_cons, elem_of_nil.
  intros [->|[->|[->|[->|[->|[]]]]]]; reflexivity.
Qed.

Section Answers.

Variable range_order : list string → list string.
Hypothesis range_order_perm : ∀ l, range_order l ≡ₚ l.

Lemma allowedMethods_run cs path :
  let a := run cs (NewApplication NewServeMux) in
  allowedMethods range_order a path
  = String.concat ", " (range_order (keys (table a path))).
Proof.
  intros a. unfold allowedMethods. apply allowedMethods_loop_concat.
  intros k Hk. rewrite range_order_perm in Hk. by eapply run_keys_nonempty.
Qed.

Lemma range_order_keys cs path :
  let ks := range_order (keys (table (run cs (NewApplication NewServeMux)) path)) in
  NoDup ks ∧ ∀ m, m ∈ ks ↔ m ∈ registered cs path.
Proof.
  intros ks. unfold ks. split.
  - rewrite range_order_perm. apply NoDup_keys.
  - intros m. by rewrite range_order_perm, run_keys.
Qed.

(** C3: on a router built by the calls [cs], the string returned by
    [allowedMethods] for [path] is the join with [", "] of a list without
    repetitions whose members are exactly the methods registered for
    [path]; it is empty when nothing was registered for [path].  Which
    list it is depends on the iteration order alone. *)
Theorem C3_allowed_methods (cs : list api_call) (path : string) :
  let a := run cs (NewApplication NewServeMux) in
  ∃ ks : list string,
    NoDup ks
    ∧ (∀ m, m ∈ ks ↔ m ∈ registered cs path)
    ∧ allowedMethods range_order a path = String.concat ", " ks
    ∧ (registered cs path = [] → allowedMethods range_order a path = "").
Proof.
  intros a. destruct (range_order_keys cs path) as [Hnd Hks].
  exists (range_order (keys (table a path))). split_and!; [done|done| |].
  - apply allowedMethods_run.
  - intros Hnil. unfold a. rewrite allowedMethods_run.
    destruct (range_order _) as [|k ks]; [done|].
    specialize (Hks k). rewrite Hnil, elem_of_nil in Hks.
    destruct Hks as [[] _]. by left.
Qed.

(** C2: on a path with at least one registered method, a request whose
    method is not registered for it gets, on a response on which nothing
    was written yet, status 405, the header [Allow] holding the registered
    methods joined with [", "], and the body ["Method Not Allowed"]
    followed by one newline; no handler runs. *)
Theorem C2_method_not_allowed (cs : list api_call) (path : string) (σ : World) :
  let a := run cs (NewApplication NewServeMux) in
  registered cs path ≠ [] →
  Method (request σ) ∉ registered cs path →
  wroteHeader (writer σ) = false →
  Body (writer σ) = "" →
  ∃ (ks : list string) (σ' : World),
    NoDup ks
    ∧ (∀ m, m ∈ ks ↔ m ∈ registered cs path)
    ∧ ServeHTTP range_order a path σ = Returned σ'
    ∧ Code (writer σ') = 405
    ∧ HeaderMap (writer σ') !! "Allow" = Some (String.concat ", " ks)
    ∧ Body (writer σ') = "Method Not Allowed" +:+ newline
    ∧ called σ' = called σ.
Proof.
  intros a Hreg Hm Hw Hb.
  destruct (range_order_keys cs path) as [Hnd Hks].
  assert (Hin : path ∈ mux a).
  { apply (installed_ok_run cs _ installed_ok_new).
    by apply run_routes, elem_of_registered_paths. }
  assert (Hmiss : table a path !! Method (request σ) = None).
  { apply eq_None_not_Some. unfold a. by rewrite run_tables. }
  destruct (method_not_allowed_written (allowedMethods range_order a path) σ Hw)
    as (Hcode & Hallow & Hbody & Hcalled & _).
  eexists _, _. split_and!; [exact Hnd|exact Hks| | | | |].
  - by apply ServeHTTP_missing.
  - exact Hcode.
  - rewrite Hallow. f_equal. apply allowedMethods_run.
  - by rewrite Hbody, Hb.
  - exact Hcalled.
Qed.

End Answers.

(** ** Growth of the route table *)

Lemma exec_table a c path :
  table (exec a c) path = table a path
  ∨ ∃ m h, table (exec a c) path = <[m := h]> (table a path).
Proof.
  destruct c as [g|v p h r]; simpl; [by left|].
  rewrite entry_handle. destruct (decide (p = path)) as [->|Hne].
  - right. eexists _, _. apply handle_table.
  - left. by apply handle_table_ne.
Qed.

Lemma exec_table_dom a c path :
  dom (table a path) ⊆ dom (table (exec a c) path).
Proof.
  destruct (exec_table a c path) as [->|(m & h & ->)]; [done|].
  rewrite dom_insert_L. set_solver.
Qed.

Lemma entry_first v path h rmws a :
  pathMethodHandlerMap a !! path = None →
  pathMethodHandlerMap (entry v path h rmws a) !! path
  = Some (<[verb_method v := nest (mws a ++ rmws) h]> ∅)
  ∧ mux (entry v path h rmws a) = mux a ++ [path].
Proof.
  intros Hnone. rewrite entry_handle, handle_lookup, handle_mux.
  unfold table. by rewrite Hnone.
Qed.

Lemma entry_later v path h rmws a t :
  pathMethodHandlerMap a !! path = Some t →
  pathMethodHandlerMap (entry v path h rmws a) !! path
  = Some (<[verb_method v := nest (mws a ++ rmws) h]> t)
  ∧ mux (entry v path h rmws a) = mux a.
Proof.
  intros Hsome. rewrite entry_handle, handle_lookup, handle_mux.
  unfold table. by rewrite Hsome.
Qed.

(** C7: [WithGlobalMiddlewares] appends to the global list and changes
    nothing else, so every stored handler is the one composed at
    registration and every request is answered as before the call; the
    method returns the address of its receiver.  A route registered
    before the call runs the chain built from the global middleware of
    that time, without the middleware added later. *)
Theorem C7_global_not_retroactive (range_order : list string → list string)
    (a : Application) (gmws : list Middleware) :
  let a' := WithGlobalMiddlewares gmws a in
  pathMethodHandlerMap a' = pathMethodHandlerMap a
  ∧ mux a' = mux a
  ∧ mws a' = mws a ++ gmws
  ∧ (∀ path σ, ServeHTTP range_order a' path σ = ServeHTTP range_order a path σ)
  ∧ (∀ (s : gmap positive Application) (p : positive),
       s !! p = Some a →
       WithGlobalMiddlewares_ref p gmws s = Some (p, <[p := a']> s))
  ∧ (∀ method path h rmws σ,
       reachable a →
       Method (request σ) = method →
       ServeHTTP range_order (WithGlobalMiddlewares gmws (handle method path h rmws a)) path σ
       = invoke (nest (mws a ++ rmws) h) σ).
Proof.
  intros a'. split_and!; try done.
  - intros s p Hp. unfold WithGlobalMiddlewares_ref. by rewrite Hp.
  - intros method path h rmws σ Hr Hm.
    change (ServeHTTP range_order (handle method path h rmws a) path σ
            = invoke (nest (mws a ++ rmws) h) σ).
    apply ServeHTTP_handle; [by apply reachable_installed_ok|done].
Qed.

(** C8: registering a nil handler succeeds and stores an entry, so the
    method counts as registered and a matching request is not answered
    with 405: the callback runs the stored chain and returns its outcome
    as it is.  Calling the nil terminal step is a fault; with middleware
    that all call [next] the request ends in that fault, after they ran. *)
Theorem C8_nil_handler (range_order : list string → list string)
    (a : Application) (method path : string) (rmws : list Middleware) (σ : World) :
  reachable a →
  Method (request σ) = method →
  let a' := handle method path None rmws a in
  table a' path !! method = Some (nest (mws a ++ rmws) None)
  ∧ path ∈ mux a'
  ∧ ServeHTTP range_order a' path σ = invoke (nest (mws a ++ rmws) None) σ
  ∧ (∀ σ0, invoke None σ0 = Panicked σ0)
  ∧ (∀ gl rl,
       mws a = passing <$> gl → rmws = passing <$> rl →
       ServeHTTP range_order a' path σ = Panicked (record_all (gl ++ rl) σ)).
Proof.
  intros Hr Hm a'.
  pose proof (reachable_installed_ok a Hr) as Hok.
  assert (Hserve : ServeHTTP range_order a' path σ
                   = invoke (nest (mws a ++ rmws) None) σ).
  { by apply ServeHTTP_handle. }
  split_and!.
  - unfold a'. by rewrite handle_table, lookup_insert_eq.
  - apply handle_installed, Hok.
  - done.
  - done.
  - intros gl rl Hg ->. by rewrite Hserve, Hg, <- fmap_app, nest_passing.
Qed.

(** C10: the entry points register under the upper-case names [GET],
    [POST], [PUT], [PATCH], [DELETE]; the callback finds a handler only
    under the very string of the request's method, so a request whose
    method differs from a registered one in letter case only is answered
    with 405. *)
Theorem C10_case_sensitive (range_order : list string → list string)
    (cs : list api_call) (path : string) (σ : World) (m : string) :
  let a := run cs (NewApplication NewServeMux) in
  m ∈ registered cs path →
  Method (request σ) ≠ m →
  to_upper (Method (request σ)) = m →
  (verb_method VGet = "GET" ∧ verb_method VPost = "POST" ∧ verb_method VPut = "PUT"
   ∧ verb_method VPatch = "PATCH" ∧ verb_method VDelete = "DELETE")
  ∧ (∀ v p h rmws b, entry v p h rmws b = handle (verb_method v) p h rmws b)
  ∧ table a path !! Method (request σ) = None
  ∧ is_Some (table a path !! m)
  ∧ ServeHTTP range_order a path σ
    = Returned (on_writer (Error "Method Not Allowed" StatusMethodNotAllowed)
                  (on_writer (Header_Set "Allow" (allowedMethods range_order a path)) σ)).
Proof.
  intros a Hm Hne Hup.
  assert (Hmiss : table a path !! Method (request σ) = None).
  { apply eq_None_not_Some. unfold a. rewrite run_tables. intros Hin.
    apply Hne. rewrite <- Hup. symmetry.
    eapply to_upper_canonical, registered_canonical, Hin. }
  split_and!; try done.
  - intros. apply entry_handle.
  - by apply run_tables.
  - apply ServeHTTP_missing; [|done].
    apply (installed_ok_run cs _ installed_ok_new).
    apply run_routes, elem_of_registered_paths.
    intros Hnil. rewrite Hnil in Hm. by apply elem_of_nil in Hm.
Qed.

(** ** The test suite, evaluated *)

(** [TestApplication_HandleMethods] *)
Example test_HandleMethods :
  let a := run test_calls app0 in
  let answer method := writer (world_of (ServeHTTP id a "/test" (fresh method "/test"))) in
  (Code (answer "GET"), Body (answer "GET")) = (200, "GET")
  ∧ (Code (answer "POST"), Body (answer "POST")) = (200, "POST")
  ∧ (Code (answer "PUT"), Body (answer "PUT")) = (200, "PUT")
  ∧ (Code (answer "PATCH"), Body (answer "PATCH")) = (200, "PATCH")
  ∧ (Code (answer "DELETE"), Body (answer "DELETE")) = (200, "DELETE")
  ∧ (Code (answer "OPTIONS"), Body (answer "OPTIONS"))
    = (405, "Method Not Allowed" +:+ newline).
Proof. vm_compute. by split_and!. Qed.

(** [TestApplication_MiddlewareOrder] *)
Example test_MiddlewareOrder :
  let a := Get "/mw" (logging "handler") [passing "mw1"; passing "mw2"] app0 in
  called (world_of (ServeHTTP id a "/mw" (fresh "GET" "/mw")))
  = ["mw1"; "mw2"; "handler"].
Proof. reflexivity. Qed.

(** [TestApplication_AllowedMethodsHeader], for two iteration orders. *)
Example test_AllowedMethodsHeader :
  let a := run foo_calls app0 in
  writer (world_of (ServeHTTP id a "/foo" (fresh "DELETE" "/foo")))
  = method_not_allowed "GET, POST"
  ∧ writer (world_of (ServeHTTP reverse a "/foo" (fresh "DELETE" "/foo")))
    = method_not_allowed "POST, GET".
Proof. vm_compute. by split. Qed.

(** [TestApplication_MultipleRoutes] *)
Example test_MultipleRoutes :
  let a := Get "/route2" (stringHandler "route2") []
             (Get "/route1" (stringHandler "route1") [] app0) in
  let answer path := writer (world_of (ServeHTTP id a path (fresh "GET" path))) in
  (Code (answer "/route1"), Body (answer "/route1")) = (200, "route1")
  ∧ (Code (answer "/route2"), Body (answer "/route2")) = (200, "route2")
  ∧ (Code (answer "/route3"), Body (answer "/route3"))
    = (404, "404 page not found" +:+ newline).
Proof. vm_compute. by split_and!. Qed.

(** [TestApplication_OverwriteHandler] *)
Example test_OverwriteHandler :
  let a := Get "/test" (stringHandler "second") []
             (Get "/test" (stringHandler "first") [] app0) in
  Body (writer (world_of (ServeHTTP id a "/test" (fresh "GET" "/test")))) = "second".
Proof. reflexivity. Qed.

(** [TestApplication_GlobalMiddleware] *)
Example test_GlobalMiddleware :
  let a := Get "/test" (logging "handler") [] global_app in
  called (world_of (ServeHTTP id a "/test" (fresh "GET" "/test")))
  = ["global"; "handler"].
Proof. reflexivity. Qed.

(** [TestApplication_MiddlewareInterruption] *)
Example test_MiddlewareInterruption :
  let a := Get "/test" (logging "handler")
             [interrupting "interrupt" StatusUnauthorized] app0 in
  let σ := world_of (ServeHTTP id a "/test" (fresh "GET" "/test")) in
  called σ = ["interrupt"] ∧ Code (writer σ) = 401.
Proof. by vm_compute. Qed.

(** [TestApplication_InvalidHandler] *)
Example test_InvalidHandler :
  ServeHTTP id (Get "/test" None [] app0) "/test" (fresh "GET" "/test")
  = Panicked (fresh "GET" "/test").
Proof. reflexivity. Qed.

(** A global middleware added after a route does not wrap that route. *)
Example late_global_middleware :
  let a := WithGlobalMiddlewares [passing "late"]
             (Get "/test" (logging "handler") [] global_app) in
  called (world_of (ServeHTTP id a "/test" (fresh "GET" "/test")))
  = ["global"; "handler"].
Proof. reflexivity. Qed.

(** ** Instances of the theorems *)

Lemma reachable_app0 : reachable app0.
Proof. by exists []. Qed.

Lemma reachable_global_app : reachable global_app.
Proof. by exists [CallWithGlobalMiddlewares [passing "global"]]. Qed.

Lemma id_perm (l : list string) : id l ≡ₚ l.
Proof. done. Qed.

Lemma C1_chain_order_witness :
  reachable global_app
  ∧ Method (request (fresh "GET" "/x")) = "GET"
  ∧ called (world_of (ServeHTTP id
               (handle "GET" "/x" (logging "H") [passing "A"] global_app)
               "/x" (fresh "GET" "/x")))
    = ["global"; "A"; "H"].
Proof.
  split; [exact reachable_global_app|]. split; [reflexivity|].
  destruct (C1_chain_order id global_app "GET" "/x" (logging "H") [passing "A"]
              (fresh "GET" "/x") reachable_global_app eq_refl) as (_ & _ & Hlog).
  exact (Hlog [Pass "global"] [Pass "A"] "H" eq_refl eq_refl eq_refl).
Defined.

Lemma C2_method_not_allowed_witness :
  registered foo_calls "/foo" ≠ []
  ∧ (Method (request (fresh "DELETE" "/foo")) ∉ registered foo_calls "/foo")
  ∧ ∃ (ks : list string) (σ' : World),
      NoDup ks
      ∧ (∀ m, m ∈ ks ↔ m ∈ registered foo_calls "/foo")
      ∧ ServeHTTP id (run foo_calls app0) "/foo" (fresh "DELETE" "/foo") = Returned σ'
      ∧ Code (writer σ') = 405
      ∧ HeaderMap (writer σ') !! "Allow" = Some (String.concat ", " ks)
      ∧ Body (writer σ') = "Method Not Allowed" +:+ newline
      ∧ called σ' = called (fresh "DELETE" "/foo").
Proof.
  assert (H1 : registered foo_calls "/foo" ≠ []) by done.
  assert (H2 : Method (request (fresh "DELETE" "/foo")) ∉ registered foo_calls "/foo")
    by compute_done.
  split; [exact H1|]. split; [exact H2|].
  exact (C2_method_not_allowed id id_perm foo_calls "/foo" (fresh "DELETE" "/foo")
           H1 H2 eq_refl eq_refl).
Defined.

Lemma C3_allowed_methods_witness :
  ∃ ks : list string,
    NoDup ks
    ∧ (∀ m, m ∈ ks ↔ m ∈ registered foo_calls "/foo")
    ∧ allowedMethods id (run foo_calls app0) "/foo" = String.concat ", " ks
    ∧ (registered foo_calls "/foo" = [] →
       allowedMethods id (run foo_calls app0) "/foo" = "").
Proof. exact (C3_allowed_methods id id_perm foo_calls "/foo"). Defined.

Lemma C4_last_registration_wins_witness :
  reachable app0
  ∧ Method (request (fresh "GET" "/test")) = "GET"
  ∧ ServeHTTP id (handle "GET" "/test" (stringHandler "second") []
                    (handle "GET" "/test" (stringHandler "first") [] app0))
      "/test" (fresh "GET" "/test")
    = invoke (stringHandler "second") (fresh "GET" "/test").
Proof.
  split; [exact reachable_app0|]. split; [reflexivity|].
  exact (proj2 (proj2 (proj2
    (C4_last_registration_wins id app0 "/test" "GET"
       (stringHandler "first") (stringHandler "second") [] []
       (fresh "GET" "/test") reachable_app0 eq_refl)))).
Defined.

Lemma C5_method_isolation_witness :
  reachable app0
  ∧ "GET" ≠ "POST"
  ∧ ServeHTTP id (handle "POST" "/foo" (stringHandler "baz") [passing "B"]
                    (handle "GET" "/foo" (stringHandler "bar") [passing "A"] app0))
      "/foo" (fresh "GET" "/foo")
    = invoke (passing "A" (stringHandler "bar")) (fresh "GET" "/foo").
Proof.
  assert (Hne : "GET" ≠ "POST") by done.
  split; [exact reachable_app0|]. split; [exact Hne|].
  exact (proj1
    (C5_method_isolation id app0 "/foo" "GET" "POST"
       (stringHandler "bar") (stringHandler "baz") [passing "A"] [passing "B"]
       (fresh "GET" "/foo") reachable_app0 Hne eq_refl)).
Defined.

Lemma C8_nil_handler_witness :
  reachable global_app
  ∧ ServeHTTP id (handle "GET" "/test" None [passing "A"] global_app)
      "/test" (fresh "GET" "/test")
    = Panicked (record_all ["global"; "A"] (fresh "GET" "/test")).
Proof.
  split; [exact reachable_global_app|].
  destruct (C8_nil_handler id global_app "GET" "/test" [passing "A"]
              (fresh "GET" "/test") reachable_global_app eq_refl)
    as (_ & _ & _ & _ & Hfault).
  exact (Hfault ["global"] ["A"] eq_refl eq_refl).
Defined.

Lemma C10_case_sensitive_witness :
  "GET" ∈ registered foo_calls "/foo"
  ∧ to_upper (Method (request (fresh "get" "/foo"))) = "GET"
  ∧ ServeHTTP id (run foo_calls app0) "/foo" (fresh "get" "/foo")
    = Returned (on_writer (Error "Method Not Allowed" StatusMethodNotAllowed)
                  (on_writer (Header_Set "Allow"
                                (allowedMethods id (run foo_calls app0) "/foo"))
                     (fresh "get" "/foo"))).
Proof.
  assert (H1 : "GET" ∈ registered foo_calls "/foo") by compute_done.
  assert (H2 : Method (request (fresh "get" "/foo")) ≠ "GET") by done.
  split; [exact H1|]. split; [reflexivity|].
  exact (proj2 (proj2 (proj2 (proj2
    (C10_case_sensitive id foo_calls "/foo" (fresh "get" "/foo") "GET"
       H1 H2 eq_refl))))).
Defined.

(** * Further properties of the router *)

(** ** Composition of middleware *)

Lemma nest_transparent (n : nat) (h : HandlerFunc) (σ : World) :
  invoke (nest (replicate n transparent) h) σ = invoke h σ.
Proof. induction n as [|n IH]; [done|]. simpl. exact IH. Qed.

(** X1: [applyMiddleware] over no middleware returns the handler itself,
    and over a concatenation it wraps with the second list first and with
    the first list around the result. *)
Theorem X1_applyMiddleware_app (h : HandlerFunc) (ms1 ms2 : list Middleware) :
  applyMiddleware h [] = h
  ∧ applyMiddleware h (ms1 ++ ms2) = applyMiddleware (applyMiddleware h ms2) ms1.
Proof. split; [done|]. by rewrite !applyMiddleware_nest, nest_app. Qed.

(** X2: the two passes of [middleware], route middleware first and the
    global middleware around it, build the handler that one pass of
    [applyMiddleware] over the global list followed by the route list
    builds. *)
Theorem X2_middleware_one_pass (a : Application) (h : HandlerFunc)
    (rmws : list Middleware) :
  middleware a h rmws = applyMiddleware h (mws a ++ rmws).
Proof. by rewrite middleware_nest, applyMiddleware_nest. Qed.

(** X3: a handler wrapped by [applyMiddleware] in any number of
    middleware that only call [next] has, on every request, the outcome
    of the handler itself; for the nil handler that outcome is the
    fault. *)
Theorem X3_transparent_middleware (n : nat) (h : HandlerFunc) (σ : World) :
  invoke (applyMiddleware h (replicate n transparent)) σ = invoke h σ.
Proof. rewrite applyMiddleware_nest. apply nest_transparent. Qed.

(** ** Histories, continued *)

Lemma run_app cs1 cs2 a : run (cs1 ++ cs2) a = run cs2 (run cs1 a).
Proof. unfold run. by rewrite foldl_app. Qed.

Lemma run_cons c cs a : run (c :: cs) a = run cs (exec a c).
Proof. done. Qed.

Lemma exec_mws a c : mws (exec a c) = mws a ++ globals_of [c].
Proof.
  destruct c as [g|v p h r]; simpl.
  - by rewrite app_nil_r.
  - by rewrite entry_handle, handle_mws, app_nil_r.
Qed.

Lemma run_mws cs a : mws (run cs a) = mws a ++ globals_of cs.
Proof.
  revert a. induction cs as [|c cs IH]; intros a.
  - simpl. by rewrite app_nil_r.
  - rewrite run_cons, IH, exec_mws. destruct c; simpl.
    + by rewrite app_nil_r, app_assoc.
    + by rewrite app_nil_r.
Qed.

Lemma exec_mux_mono a c path : path ∈ mux a → path ∈ mux (exec a c).
Proof.
  destruct c as [g|v p h r]; simpl; [done|].
  rewrite entry_handle, handle_mux. intros Hin.
  destruct (pathMethodHandlerMap a !! p); [done|].
  apply elem_of_app. by left.
Qed.

Lemma run_mux_mono cs a path : path ∈ mux a → path ∈ mux (run cs a).
Proof.
  revert a. induction cs as [|c cs IH]; intros a Hin; [done|].
  rewrite run_cons. by apply IH, exec_mux_mono.
Qed.

Lemma exec_table_frame a c path method :
  ¬ registers path method c →
  table (exec a c) path !! method = table a path !! method.
Proof.
  destruct c as [g|v p h r]; simpl; [done|]. intros Hno.
  rewrite entry_handle. destruct (decide (p = path)) as [->|Hne].
  - rewrite handle_table, lookup_insert_ne; [done|]. intros Heq. by apply Hno.
  - by rewrite handle_table_ne.
Qed.

Lemma run_table_frame cs a path method :
  Forall (λ c, ¬ registers path method c) cs →
  table (run cs a) path !! method = table a path !! method.
Proof.
  revert a. induction cs as [|c cs IH]; intros a Hcs; [done|].
  apply Forall_cons in Hcs as [Hc Hcs].
  by rewrite run_cons, IH, exec_table_frame.
Qed.

(** X9: entry points never change the global middleware; after any calls
    the global list is the one before them followed by everything passed
    to [WithGlobalMiddlewares], in call order. *)
Theorem X9_globals_accumulate (cs : list api_call) (a : Application) :
  mws (run cs a) = mws a ++ globals_of cs
  ∧ (∀ v path h rmws, mws (entry v path h rmws (run cs a)) = mws (run cs a)).
Proof.
  split; [apply run_mws|]. intros. by rewrite entry_handle, handle_mws.
Qed.

(** ** Frames *)

Section Frames.

Variable range_order : list string → list string.

Lemma allowedMethods_ext a b path :
  pathMethodHandlerMap a !! path = pathMethodHandlerMap b !! path →
  allowedMethods range_order a path = allowedMethods range_order b path.
Proof. intros Heq. unfold allowedMethods, table. by rewrite Heq. Qed.

Lemma dispatch_ext a b path σ :
  pathMethodHandlerMap a !! path = pathMethodHandlerMap b !! path →
  dispatch range_order a path σ = dispatch range_order b path σ.
Proof.
  intros Heq. unfold dispatch.
  rewrite (allowedMethods_ext a b path Heq). unfold table. by rewrite Heq.
Qed.

Lemma ServeHTTP_ext a b path σ :
  (path ∈ mux a ↔ path ∈ mux b) →
  pathMethodHandlerMap a !! path = pathMethodHandlerMap b !! path →
  ServeHTTP range_order a path σ = ServeHTTP range_order b path σ.
Proof.
  intros Hmux Heq. unfold ServeHTTP.
  rewrite (dispatch_ext a b path σ Heq).
  destruct (decide (path ∈ mux a)), (decide (path ∈ mux b)); tauto.
Qed.

Lemma handle_mux_elem method path h rmws a path' :
  path' ∈ mux (handle method path h rmws a)
  ↔ path' ∈ mux a ∨ (path' = path ∧ pathMethodHandlerMap a !! path = None).
Proof.
  rewrite handle_mux. destruct (pathMethodHandlerMap a !! path) eqn:E.
  - split; [by left|]. by intros [?|[_ ?]].
  - rewrite elem_of_app, list_elem_of_singleton.
    split; [intros [?|?]; [by left|by right]|intros [?|[? _]]; [by left|by right]].
Qed.

(** X5: a registration on one path changes nothing for another path: the
    stored table, the string of allowed methods and the answer to every
    request routed to the other path are as before. *)
Theorem X5_other_path_untouched (method path : string) (h : HandlerFunc)
    (rmws : list Middleware) (a : Application) (path' : string) (σ : World) :
  path ≠ path' →
  let a' := handle method path h rmws a in
  pathMethodHandlerMap a' !! path' = pathMethodHandlerMap a !! path'
  ∧ allowedMethods range_order a' path' = allowedMethods range_order a path'
  ∧ ServeHTTP range_order a' path' σ = ServeHTTP range_order a path' σ.
Proof.
  intros Hne a'.
  assert (Heq : pathMethodHandlerMap a' !! path' = pathMethodHandlerMap a !! path').
  { by apply handle_lookup_ne. }
  split_and!; [done|by apply allowedMethods_ext|].
  apply ServeHTTP_ext; [|done].
  unfold a'. rewrite handle_mux_elem. split; [|by left].
  intros [?|[-> _]]; done.
Qed.

(** X6: two registrations that differ in the path or in the method can
    be made in either order: the route table and the global list come
    out equal, the multiplexer holds the same patterns, and every request
    gets the same answer; on one path the two routers are equal. *)
Theorem X6_registrations_commute (a : Application) (p1 p2 m1 m2 : string)
    (h1 h2 : HandlerFunc) (r1 r2 : list Middleware) :
  p1 ≠ p2 ∨ m1 ≠ m2 →
  let a12 := handle m2 p2 h2 r2 (handle m1 p1 h1 r1 a) in
  let a21 := handle m1 p1 h1 r1 (handle m2 p2 h2 r2 a) in
  pathMethodHandlerMap a12 = pathMethodHandlerMap a21
  ∧ mws a12 = mws a21
  ∧ mux a12 ≡ₚ mux a21
  ∧ (p1 = p2 → a12 = a21)
  ∧ (∀ path σ, ServeHTTP range_order a12 path σ = ServeHTTP range_order a21 path σ).
Proof.
  intros Hdiff a12 a21.
  assert (Hmap : pathMethodHandlerMap a12 = pathMethodHandlerMap a21).
  { apply map_eq. intros p. unfold a12, a21.
    destruct (decide (p1 = p2)) as [<-|Hp].
    - destruct Hdiff as [?|Hm]; [done|].
      destruct (decide (p1 = p)) as [<-|Hne].
      + rewrite !handle_lookup, !handle_table, !handle_mws.
        by rewrite insert_insert_ne.
      + by rewrite !handle_lookup_ne.
    - destruct (decide (p2 = p)) as [<-|Hne2].
      + rewrite handle_lookup, handle_lookup_ne, handle_lookup by done.
        by rewrite handle_table_ne, handle_mws.
      + destruct (decide (p1 = p)) as [<-|Hne1].
        * rewrite handle_lookup_ne, !handle_lookup by done.
          by rewrite handle_table_ne, handle_mws.
        * by rewrite !handle_lookup_ne. }
  assert (Hmws : mws a12 = mws a21).
  { unfold a12, a21. by rewrite !handle_mws. }
  assert (Hmux : mux a12 ≡ₚ mux a21 ∧ (p1 = p2 → mux a12 = mux a21)).
  { unfold a12, a21. rewrite !handle_mux.
    destruct (decide (p1 = p2)) as [<-|Hp].
    - rewrite !handle_lookup.
      by destruct (pathMethodHandlerMap a !! p1).
    - rewrite !handle_lookup_ne by done.
      destruct (pathMethodHandlerMap a !! p1), (pathMethodHandlerMap a !! p2);
        split; try done.
      rewrite <- !app_assoc. apply Permutation_app_head. simpl. apply perm_swap. }
  destruct Hmux as [Hperm Hsame].
  split_and!; [done|done|done| |].
  - intros Hp. specialize (Hsame Hp).
    destruct a12, a21. simpl in *. by subst.
  - intros path σ. apply ServeHTTP_ext; [|by rewrite Hmap].
    by rewrite Hperm.
Qed.

(** X10: in any sequence of calls, a request with the method of an entry
    point runs the handler of the last registration for its path and
    method, wrapped in the route middleware of that registration inside
    the global middleware added before it; nothing registered earlier or
    later, for this or another path or method, and no global middleware
    added later, has a part in it. *)
Theorem X10_last_registration_in_history (cs1 cs2 : list api_call) (v : verb)
    (path : string) (h : HandlerFunc) (rmws : list Middleware) (σ : World) :
  Forall (λ c, ¬ registers path (verb_method v) c) cs2 →
  Method (request σ) = verb_method v →
  ServeHTTP range_order
    (run (cs1 ++ CallEntry v path h rmws :: cs2) (NewApplication NewServeMux)) path σ
  = invoke (nest (globals_of cs1 ++ rmws) h) σ.
Proof.
  intros Hcs2 Hm. rewrite run_app, run_cons. simpl.
  set (a := run cs1 (NewApplication NewServeMux)).
  assert (Hok : installed_ok a) by apply installed_ok_run, installed_ok_new.
  rewrite entry_handle. apply ServeHTTP_found.
  - apply run_mux_mono, handle_installed, Hok.
  - rewrite Hm, run_table_frame by done.
    rewrite handle_table, lookup_insert_eq. unfold a. by rewrite run_mws.
Qed.

End Frames.

(** ** Short circuits *)

(** X4: when the chain composed at registration starts with middleware
    that log and call [next] and continues with one that writes a status
    that [WriteHeader] takes (100 to 999) and returns without calling
    [next], a matching request returns normally with that status written
    and the log of the middleware up to that one; whatever lies inside,
    other middleware or a nil handler, does not run. *)
Theorem X4_short_circuit (range_order : list string → list string)
    (a : Application) (method path : string) (handler : HandlerFunc)
    (rmws : list Middleware) (names : list string) (n : string) (code : Z)
    (inner : list Middleware) (σ : World) :
  reachable a →
  Method (request σ) = method →
  checkWriteHeaderCode code = true →
  mws a ++ rmws = (passing <$> names) ++ interrupting n code :: inner →
  ServeHTTP range_order (handle method path handler rmws a) path σ
  = Returned (on_writer (WriteHeader code) (record n (record_all names σ))).
Proof.
  intros Hr Hm _ Hchain.
  rewrite ServeHTTP_handle by (try apply reachable_installed_ok; done).
  by rewrite Hchain, nest_app, nest_passing.
Qed.

(** ** Method tables and the [Allow] string *)

Lemma append_empty_r (s : string) : s +:+ "" = s.
Proof.
  induction s as [|c s IH]; [done|].
  change (String c (s +:+ "") = String c s). by f_equal.
Qed.

Lemma concat_Contains (sep : string) (ks : list string) (m : string) :
  m ∈ ks → Contains (String.concat sep ks) m.
Proof.
  induction ks as [|k ks IH]; [by rewrite elem_of_nil|].
  rewrite elem_of_cons. intros [->|Hin].
  - destruct ks as [|k' ks].
    + exists "", "". by rewrite append_empty_r.
    + exists "", (sep +:+ String.concat sep (k' :: ks)). by rewrite concat_cons2.
  - destruct ks as [|k' ks]; [by apply elem_of_nil in Hin|].
    destruct (IH Hin) as (pre & post & Heq).
    exists (k +:+ sep +:+ pre), post.
    by rewrite concat_cons2, Heq, !append_assoc.
Qed.

Lemma allowedMethods_loop_drop_empty (ks : list string) :
  foldl allowedMethods_step "" ks = String.concat ", " (drop_empty ks).
Proof.
  induction ks as [|k ks IH]; [done|].
  cbn [foldl drop_empty]. destruct (decide (k = "")) as [->|Hk].
  - exact IH.
  - unfold allowedMethods_step at 2. rewrite decide_True by done.
    change ("" +:+ k) with k. by apply allowedMethods_loop_from.
Qed.

Lemma canonical_length : length canonical_methods = 5%nat.
Proof. done. Qed.

(** X7: on a router built through the public API every method table
    holds only the five method names of the entry points, hence at most
    five entries, and at least one once something was registered for its
    path. *)
Theorem X7_table_size (cs : list api_call) (path : string) :
  let t := table (run cs (NewApplication NewServeMux)) path in
  (∀ m, is_Some (t !! m) → m ∈ canonical_methods)
  ∧ (size t ≤ 5)%nat
  ∧ (registered cs path ≠ [] → (1 ≤ size t)%nat).
Proof.
  intros t.
  assert (Hcan : ∀ m, m ∈ keys t → m ∈ canonical_methods).
  { intros m Hm. apply run_keys in Hm. by eapply registered_canonical. }
  assert (Hsize : size t = length (keys t)).
  { unfold keys. by rewrite length_fmap, length_map_to_list. }
  split_and!.
  - intros m Hm. by apply Hcan, elem_of_keys.
  - rewrite Hsize, <- canonical_length. apply submseteq_length.
    apply NoDup_submseteq; [apply NoDup_keys|done].
  - intros Hreg. rewrite Hsize.
    destruct (registered cs path) as [|m ms] eqn:E; [done|].
    assert (Hm : m ∈ keys t).
    { apply run_keys. rewrite E. by left. }
    destruct (keys t); [by apply elem_of_nil in Hm|simpl; lia].
Qed.

(** X12: on every router state and for every iteration order,
    [allowedMethods] is the join with [", "] of the visited names after
    the leading empty names: the loop takes an empty accumulator for the
    first iteration, so an empty name visited first leaves neither itself
    nor a separator behind. *)
Theorem X12_allowedMethods_any_state (range_order : list string → list string)
    (a : Application) (path : string) :
  allowedMethods range_order a path
  = String.concat ", " (drop_empty (range_order (keys (table a path)))).
Proof. apply allowedMethods_loop_drop_empty. Qed.

(** The empty name as a method, stored through [handle]: visited last it
    leaves a trailing separator, visited first it leaves nothing. *)
Example empty_method_name :
  let a := handle "GET" "/x" (stringHandler "g") []
             (handle "" "/x" (stringHandler "e") [] app0) in
  keys (table a "/x") = ["GET"; ""]
  ∧ allowedMethods id a "/x" = "GET, "
  ∧ allowedMethods reverse a "/x" = "GET".
Proof. vm_compute. by split_and!. Qed.

Section Allow.

Variable range_order : list string → list string.
Hypothesis range_order_perm : ∀ l, range_order l ≡ₚ l.

(** X11: every method registered for a path occurs in the string that
    [allowedMethods] returns for it, as the test of the [Allow] header
    checks with [strings.Contains]. *)
Theorem X11_allow_contains (cs : list api_call) (path m : string) :
  m ∈ registered cs path →
  Contains (allowedMethods range_order (run cs (NewApplication NewServeMux)) path) m.
Proof.
  intros Hm. unfold allowedMethods.
  rewrite allowedMethods_loop_concat.
  - apply concat_Contains. by rewrite range_order_perm, run_keys.
  - intros k Hk. rewrite range_order_perm in Hk. by eapply run_keys_nonempty.
Qed.

End Allow.

(** ** Instances of the further properties *)

Lemma X4_short_circuit_witness :
  reachable global_app
  ∧ checkWriteHeaderCode StatusUnauthorized = true
  ∧ ServeHTTP id
      (handle "GET" "/test" None [interrupting "interrupt" StatusUnauthorized;
                                  passing "inner"] global_app)
      "/test" (fresh "GET" "/test")
    = Returned (on_writer (WriteHeader StatusUnauthorized)
                  (record "interrupt" (record_all ["global"] (fresh "GET" "/test")))).
Proof.
  split; [exact reachable_global_app|]. split; [reflexivity|].
  exact (X4_short_circuit id global_app "GET" "/test" None
           [interrupting "interrupt" StatusUnauthorized; passing "inner"]
           ["global"] "interrupt" StatusUnauthorized [passing "inner"]
           (fresh "GET" "/test") reachable_global_app eq_refl eq_refl eq_refl).
Defined.

Lemma X5_other_path_untouched_witness :
  "/route1" ≠ "/route2"
  ∧ ServeHTTP id (handle "GET" "/route1" (stringHandler "route1") [] (run foo_calls app0))
      "/route2" (fresh "GET" "/route2")
    = ServeHTTP id (run foo_calls app0) "/route2" (fresh "GET" "/route2").
Proof.
  assert (Hne : "/route1" ≠ "/route2") by done.
  split; [exact Hne|].
  exact (proj2 (proj2
    (X5_other_path_untouched id "GET" "/route1" (stringHandler "route1") []
       (run foo_calls app0) "/route2" (fresh "GET" "/route2") Hne))).
Defined.

Lemma X6_registrations_commute_witness :
  ("/route1" ≠ "/route2" ∨ "GET" ≠ "GET")
  ∧ pathMethodHandlerMap
      (handle "GET" "/route2" (stringHandler "route2") []
         (handle "GET" "/route1" (stringHandler "route1") [] app0))
    = pathMethodHandlerMap
        (handle "GET" "/route1" (stringHandler "route1") []
           (handle "GET" "/route2" (stringHandler "route2") [] app0)).
Proof.
  assert (Hne : "/route1" ≠ "/route2" ∨ "GET" ≠ "GET") by (by left).
  split; [exact Hne|].
  exact (proj1
    (X6_registrations_commute id app0 "/route1" "/route2" "GET" "GET"
       (stringHandler "route1") (stringHandler "route2") [] [] Hne)).
Defined.

Lemma X10_last_registration_in_history_witness :
  Forall (λ c, ¬ registers "/test" (verb_method VGet) c)
    [CallWithGlobalMiddlewares [passing "late"];
     CallEntry VPost "/test" (stringHandler "POST") []]
  ∧ ServeHTTP id
      (run ([CallWithGlobalMiddlewares [passing "global"];
             CallEntry VGet "/test" (stringHandler "first") []]
            ++ CallEntry VGet "/test" (logging "handler") [passing "A"]
            :: [CallWithGlobalMiddlewares [passing "late"];
                CallEntry VPost "/test" (stringHandler "POST") []])
         (NewApplication NewServeMux))
      "/test" (fresh "GET" "/test")
    = invoke (nest [passing "global"; passing "A"] (logging "handler"))
        (fresh "GET" "/test").
Proof.
  assert (Hcs2 : Forall (λ c, ¬ registers "/test" (verb_method VGet) c)
                   [CallWithGlobalMiddlewares [passing "late"];
                    CallEntry VPost "/test" (stringHandler "POST") []]).
  { repeat constructor; simpl; [tauto|]. by intros [_ ?]. }
  split; [exact Hcs2|].
  exact (X10_last_registration_in_history id
           [CallWithGlobalMiddlewares [passing "global"];
            CallEntry VGet "/test" (stringHandler "first") []]
           [CallWithGlobalMiddlewares [passing "late"];
            CallEntry VPost "/test" (stringHandler "POST") []]
           VGet "/test" (logging "handler") [passing "A"]
           (fresh "GET" "/test") Hcs2 eq_refl).
Defined.

Lemma X11_allow_contains_witness :
  "POST" ∈ registered foo_calls "/foo"
  ∧ Contains (allowedMethods id (run foo_calls (NewApplication NewServeMux)) "/foo") "POST".
Proof.
  assert (Hm : "POST" ∈ registered foo_calls "/foo") by compute_done.
  split; [exact Hm|].
  exact (X11_allow_contains id id_perm foo_calls "/foo" "POST" Hm).
Defined.

(** * Registration step by step *)

Section StepsFacts.

Variable accepts : list string → string → bool.

(** What one call of [handle] leaves behind, whether it returns or not. *)
Lemma Steps_handle_after method path handler rmws a :
  let r := Steps.handle accepts method path handler rmws a in
  Steps.mws (Steps.after r) = Steps.mws a
  ∧ (∀ p, p ≠ path →
       Steps.pathMethodHandlerMap (Steps.after r) !! p = Steps.pathMethodHandlerMap a !! p)
  ∧ (Steps.mux (Steps.after r) = Steps.mux a
     ∨ (Steps.pathMethodHandlerMap a !! path = None
        ∧ Steps.mux (Steps.after r) = Steps.mux a ++ [path]))
  ∧ ((Steps.returned r = false
      ∧ Steps.pathMethodHandlerMap (Steps.after r) !! path = Some (Steps.table a path))
     ∨ (Steps.returned r = true
        ∧ (∃ h, Steps.pathMethodHandlerMap (Steps.after r) !! path
                = Some (<[method := h]> (Steps.table a path)))
        ∧ (Steps.pathMethodHandlerMap a !! path = None →
           Steps.mux (Steps.after r) = Steps.mux a ++ [path]))).
Proof.
  unfold Steps.handle, Steps.install, Steps.HandleFunc, Steps.table.
  destruct (Steps.pathMethodHandlerMap a !! path) as [t|] eqn:E; simpl.
  - destruct (Steps.middleware a handler rmws) as [h|]; simpl.
    + split_and!; [done| |by left|].
      * intros p Hp. by rewrite lookup_alter_ne.
      * right. split_and!; [done| |done].
        exists h. by rewrite lookup_alter_eq, E.
    + split_and!; [done|done|by left|]. left. by rewrite E.
  - destruct (accepts (Steps.mux a) path); simpl.
    + destruct (Steps.middleware _ handler rmws) as [h|]; simpl.
      * split_and!; [done| |by right|].
        -- intros p Hp. by rewrite lookup_alter_ne, lookup_insert_ne.
        -- right. split_and!; [done| |done].
           exists h. by rewrite lookup_alter_eq, lookup_insert_eq.
      * split_and!; [done| |by right|].
        -- intros p Hp. by rewrite lookup_insert_ne.
        -- left. by rewrite lookup_insert_eq.
    + split_and!; [done| |by left|].
      * intros p Hp. by rewrite lookup_insert_ne.
      * left. by rewrite lookup_insert_eq.
Qed.

Lemma Steps_entry_handle v path handler rmws a :
  Steps.entry accepts v path handler rmws a
  = Steps.handle accepts (verb_method v) path handler rmws a.
Proof. by destruct v. Qed.

(** The table of a path across one call: the same, or one insertion. *)
Lemma Steps_exec_table a c path :
  Steps.table (Steps.after (Steps.exec accepts a c)) path = Steps.table a path
  ∨ ∃ m h, Steps.table (Steps.after (Steps.exec accepts a c)) path
           = <[m := h]> (Steps.table a path).
Proof.
  destruct c as [g|v p handler rmws]; simpl; [by left|].
  rewrite Steps_entry_handle.
  destruct (Steps_handle_after (verb_method v) p handler rmws a)
    as (_ & Hother & _ & Hpath).
  destruct (decide (p = path)) as [->|Hne].
  - unfold Steps.table at 1 3.
    destruct Hpath as [[_ ->]|(_ & [h ->] & _)]; [by left|].
    right. by exists (verb_method v), h.
  - left. unfold Steps.table. by rewrite Hother.
Qed.

Lemma Steps_installed_ok_exec a c :
  Steps_installed_ok a → Steps_installed_ok (Steps.after (Steps.exec accepts a c)).
Proof.
  intros [Hnd Hin]. destruct c as [g|v p handler rmws]; simpl; [done|].
  rewrite Steps_entry_handle.
  destruct (Steps_handle_after (verb_method v) p handler rmws a)
    as (_ & Hother & Hmux & Hpath).
  set (r := Steps.handle accepts (verb_method v) p handler rmws a) in *.
  assert (Hkey : is_Some (Steps.pathMethodHandlerMap (Steps.after r) !! p)).
  { destruct Hpath as [[_ ->]|(_ & [h ->] & _)]; eauto. }
  assert (Hkeys : ∀ path, is_Some (Steps.pathMethodHandlerMap a !! path) →
                          is_Some (Steps.pathMethodHandlerMap (Steps.after r) !! path)).
  { intros path Hs. destruct (decide (path = p)) as [->|Hne]; [done|].
    by rewrite Hother. }
  unfold Steps_installed_ok. destruct Hmux as [Hm|[Hnone Hm]]; rewrite Hm.
  - split; [done|]. intros path Hp. by apply Hkeys, Hin.
  - split.
    + apply NoDup_app. split_and!; [done| |apply NoDup_singleton].
      intros x Hx ->%list_elem_of_singleton.
      apply Hin in Hx. rewrite Hnone in Hx. by destruct Hx.
    + intros path [Hp| ->%list_elem_of_singleton]%elem_of_app; [|done].
      by apply Hkeys, Hin.
Qed.

Lemma Steps_installed_ok_run cs a :
  Steps_installed_ok a → Steps_installed_ok (Steps.run accepts cs a).
Proof.
  revert a. induction cs as [|c cs IH]; intros a Ha; [done|].
  apply IH. by apply Steps_installed_ok_exec.
Qed.

Lemma Steps_installed_ok_new : Steps_installed_ok (Steps.NewApplication NewServeMux).
Proof.
  split; [constructor|]. intros path Hp. by apply elem_of_nil in Hp.
Qed.

(** The names in a table are those it had and the methods of the
    registrations that returned; this holds after every call. *)
Lemma Steps_run_tables cs a path m :
  is_Some (Steps.table (Steps.run accepts cs a) path !! m)
  ↔ is_Some (Steps.table a path !! m) ∨ m ∈ Steps.registered accepts cs a path.
Proof.
  revert a. induction cs as [|c cs IH]; intros a.
  - simpl. rewrite elem_of_nil. tauto.
  - change (Steps.run accepts (c :: cs) a)
      with (Steps.run accepts cs (Steps.after (Steps.exec accepts a c))).
    rewrite IH. destruct c as [g|v p handler rmws].
    + done.
    + cbn [Steps.registered]. cbn [Steps.exec].
      rewrite Steps_entry_handle.
      destruct (Steps_handle_after (verb_method v) p handler rmws a)
        as (_ & Hother & _ & Hpath).
      set (r := Steps.handle accepts (verb_method v) p handler rmws a) in *.
      destruct (decide (p = path)) as [->|Hne].
      * unfold Steps.table at 1.
        destruct Hpath as [[-> ->]|(-> & [h ->] & _)]; simpl.
        -- reflexivity.
        -- rewrite lookup_insert_is_Some', elem_of_cons.
           split; [intros [[<-|?]|?]|intros [?|[->|?]]]; auto.
      * unfold Steps.table at 1. rewrite Hother by done.
        fold (Steps.table a path). tauto.
Qed.

Lemma Steps_registered_canonical cs a path m :
  m ∈ Steps.registered accepts cs a path → m ∈ canonical_methods.
Proof.
  revert a. induction cs as [|c cs IH]; intros a; [by rewrite elem_of_nil|].
  destruct c as [g|v p handler rmws]; cbn [Steps.registered]; [apply IH|].
  destruct (decide (p = path)); [|apply IH].
  destruct (Steps.returned _); [|apply IH].
  rewrite elem_of_cons. intros [->|?]; [apply verb_method_canonical|by eapply IH].
Qed.

Lemma Steps_complete_ok_exec a c :
  Steps.returned (Steps.exec accepts a c) = true →
  Steps_complete_ok a → Steps_complete_ok (Steps.after (Steps.exec accepts a c)).
Proof.
  intros Hret Hok. destruct c as [g|v p handler rmws]; simpl in *; [done|].
  rewrite Steps_entry_handle in *.
  destruct (Steps_handle_after (verb_method v) p handler rmws a)
    as (_ & Hother & Hmux & Hpath).
  set (r := Steps.handle accepts (verb_method v) p handler rmws a) in *.
  destruct Hpath as [[Hfalse _]|(_ & [h Hh] & Hnew)]; [congruence|].
  assert (Hmono : ∀ path, path ∈ Steps.mux a → path ∈ Steps.mux (Steps.after r)).
  { intros path Hp. destruct Hmux as [->|[_ ->]]; [done|].
    apply elem_of_app. by left. }
  intros path t Ht. destruct (decide (path = p)) as [->|Hne].
  - rewrite Hh in Ht. injection Ht as <-. split.
    + destruct (Steps.pathMethodHandlerMap a !! p) as [t0|] eqn:E.
      * apply Hmono. by apply (Hok p t0).
      * rewrite Hnew by done. apply elem_of_app. right.
        by apply list_elem_of_singleton.
    + apply insert_non_empty.
  - rewrite Hother in Ht by done. destruct (Hok path t Ht) as [Hp Hne'].
    split; [by apply Hmono|done].
Qed.

Lemma Steps_complete_ok_run cs a :
  Steps.completes accepts cs a →
  Steps_complete_ok a → Steps_complete_ok (Steps.run accepts cs a).
Proof.
  revert a. induction cs as [|c cs IH]; intros a Hc Ha; [done|].
  destruct Hc as [Hret Hc]. apply IH; [done|].
  by apply Steps_complete_ok_exec.
Qed.

Lemma Steps_complete_ok_new : Steps_complete_ok (Steps.NewApplication NewServeMux).
Proof. intros path t Ht. simpl in Ht. by rewrite lookup_empty in Ht. Qed.

End StepsFacts.

(** ** The two models agree on calls that return *)

Lemma Steps_applyMiddleware_loop_total (ms : list Middleware) (i : nat) (h : HandlerFunc) :
  Steps.applyMiddleware_loop (Steps.total <$> ms) i h
  = Some (applyMiddleware_loop ms i h).
Proof.
  revert h. induction i as [|j IH]; intros h; [done|].
  cbn [Steps.applyMiddleware_loop applyMiddleware_loop].
  rewrite list_lookup_fmap.
  change (HandlerFunc → HandlerFunc) with Middleware.
  destruct (ms !! j) as [m|]; simpl; [apply IH|done].
Qed.

Lemma Steps_middleware_total (a : Application) (h : HandlerFunc) (rmws : list Middleware) :
  Steps.middleware (Steps_of a) h (Steps.total <$> rmws) = Some (middleware a h rmws).
Proof.
  unfold Steps.middleware, Steps.applyMiddleware, middleware, applyMiddleware.
  rewrite !length_fmap, Steps_applyMiddleware_loop_total. simpl.
  by rewrite length_fmap, Steps_applyMiddleware_loop_total.
Qed.

(** A registration with middleware that always return, for a path that is
    known or that the multiplexer accepts, returns and leaves the router
    that [handle] describes. *)
Lemma Steps_handle_total (accepts : list string → string → bool)
    (method path : string) (h : HandlerFunc) (rmws : list Middleware) (a : Application) :
  is_Some (pathMethodHandlerMap a !! path) ∨ accepts (mux a) path = true →
  Steps.handle accepts method path h (Steps.total <$> rmws) (Steps_of a)
  = Steps.Returns (Steps_of (handle method path h rmws a)).
Proof.
  intros Hacc. unfold Steps.handle, Steps.install, Steps.HandleFunc, handle, HandleFunc.
  cbn [Steps.pathMethodHandlerMap Steps_of Steps.mux Steps.mws].
  destruct (pathMethodHandlerMap a !! path) as [t|] eqn:E.
  - by rewrite Steps_middleware_total.
  - destruct Hacc as [[? ?] | Hacc]; [done|]. rewrite Hacc.
    change {| Steps.mux := mux a ++ [path]; Steps.mws := Steps.total <$> mws a;
              Steps.pathMethodHandlerMap := <[path:=∅]> (pathMethodHandlerMap a) |}
      with (Steps_of {| mux := mux a ++ [path]; mws := mws a;
                        pathMethodHandlerMap := <[path:=∅]> (pathMethodHandlerMap a) |}).
    by rewrite Steps_middleware_total.
Qed.

(** ** The invariants of the route table, with panics *)

Lemma Steps_new_table (path m : string) :
  Steps.table (Steps.NewApplication NewServeMux) path !! m = None.
Proof. unfold Steps.table. simpl. rewrite lookup_empty. simpl. apply lookup_empty. Qed.

(** C6: after any calls, the caller recovering from every panic, the
    multiplexer holds no pattern twice and only keys of the route table;
    the names in a table are exactly the methods of the registrations
    that returned; across a further call a table stays the same or gains
    one insertion, so it never shrinks; a first call for a path stores
    the empty table, and the one-entry table if it returns; a later call
    for that path hands nothing to the multiplexer.  When every call
    returned, a path is a key of the route table exactly when a method
    was registered for it and exactly when the multiplexer holds its
    callback, and no stored table is empty. *)
Theorem C6_routes_invariant_returned (accepts : list string → string → bool)
    (cs : list Steps.api_call) :
  let a0 := Steps.NewApplication NewServeMux in
  let a := Steps.run accepts cs a0 in
  NoDup (Steps.mux a)
  ∧ (∀ path, path ∈ Steps.mux a → is_Some (Steps.pathMethodHandlerMap a !! path))
  ∧ (∀ path m, is_Some (Steps.table a path !! m)
               ↔ m ∈ Steps.registered accepts cs a0 path)
  ∧ (∀ c path,
       Steps.table (Steps.after (Steps.exec accepts a c)) path = Steps.table a path
       ∨ ∃ m h, Steps.table (Steps.after (Steps.exec accepts a c)) path
                = <[m := h]> (Steps.table a path))
  ∧ (∀ c path,
       dom (Steps.table a path)
       ⊆ dom (Steps.table (Steps.after (Steps.exec accepts a c)) path))
  ∧ (∀ v path h rmws,
       Steps.pathMethodHandlerMap a !! path = None →
       let r := Steps.entry accepts v path h rmws a in
       (Steps.returned r = false
        ∧ Steps.pathMethodHandlerMap (Steps.after r) !! path = Some ∅)
       ∨ (Steps.returned r = true
          ∧ (∃ h', Steps.pathMethodHandlerMap (Steps.after r) !! path
                   = Some (<[verb_method v := h']> ∅))
          ∧ Steps.mux (Steps.after r) = Steps.mux a ++ [path]))
  ∧ (∀ v path h rmws t,
       Steps.pathMethodHandlerMap a !! path = Some t →
       Steps.mux (Steps.after (Steps.entry accepts v path h rmws a)) = Steps.mux a)
  ∧ (Steps.completes accepts cs a0 →
       (∀ path, is_Some (Steps.pathMethodHandlerMap a !! path)
                ↔ Steps.registered accepts cs a0 path ≠ [])
       ∧ (∀ path, is_Some (Steps.pathMethodHandlerMap a !! path) ↔ path ∈ Steps.mux a)
       ∧ (∀ path t, Steps.pathMethodHandlerMap a !! path = Some t → t ≠ ∅)).
Proof.
  intros a0 a.
  destruct (Steps_installed_ok_run accepts cs a0 Steps_installed_ok_new) as [Hnd Hin].
  fold a in Hnd, Hin.
  assert (Htab : ∀ path m, is_Some (Steps.table a path !! m)
                           ↔ m ∈ Steps.registered accepts cs a0 path).
  { intros path m. unfold a, a0. rewrite Steps_run_tables, Steps_new_table.
    split; [|by right]. by intros [[? ?]|?]. }
  split_and!; [done|done|done| | | | |].
  - intros c path. apply Steps_exec_table.
  - intros c path.
    destruct (Steps_exec_table accepts a c path) as [->|(m & h & ->)]; [done|].
    rewrite dom_insert_L. apply union_subseteq_r.
  - intros v path h rmws Hnone r. unfold r. rewrite Steps_entry_handle.
    destruct (Steps_handle_after accepts (verb_method v) path h rmws a)
      as (_ & _ & _ & Hpath).
    unfold Steps.table in Hpath. rewrite Hnone in Hpath. simpl in Hpath.
    destruct Hpath as [[? ?]|(? & ? & Hmux)]; [by left|].
    right. split_and!; [done|done|by apply Hmux].
  - intros v path h rmws t Hsome. rewrite Steps_entry_handle.
    destruct (Steps_handle_after accepts (verb_method v) path h rmws a)
      as (_ & _ & [?|[Hnone _]] & _); [done|congruence].
  - intros Hc.
    pose proof (Steps_complete_ok_run accepts cs a0 Hc Steps_complete_ok_new) as Hok.
    fold a in Hok.
    assert (Hne : ∀ path t, Steps.pathMethodHandlerMap a !! path = Some t → t ≠ ∅).
    { intros path t Ht. by destruct (Hok path t Ht). }
    split_and!; [| |done].
    + intros path. split.
      * intros [t Ht] Hnil.
        destruct (map_choose t (Hne path t Ht)) as (m & h & Hm).
        assert (Hin' : m ∈ Steps.registered accepts cs a0 path).
        { apply Htab. unfold Steps.table. rewrite Ht. simpl. by rewrite Hm. }
        rewrite Hnil in Hin'. by apply elem_of_nil in Hin'.
      * intros Hreg.
        destruct (Steps.registered accepts cs a0 path) as [|m ms] eqn:E; [done|].
        assert (Hm : is_Some (Steps.table a path !! m)).
        { apply Htab. rewrite E. by left. }
        unfold Steps.table in Hm.
        destruct (Steps.pathMethodHandlerMap a !! path); [done|].
        simpl in Hm. rewrite lookup_empty in Hm. by destruct Hm.
    + intros path. split; [|apply Hin].
      intros [t Ht]. by destruct (Hok path t Ht).
Qed.

Section StepsAllow.

Variable accepts : list string → string → bool.
Variable range_order : list string → list string.
Hypothesis range_order_perm : ∀ l, range_order l ≡ₚ l.

(** C9: whenever the callback of a path answers 405, the value it
    writes to [Allow] is not the empty string exactly when a registration
    for that path has returned; on a router built by calls that all
    returned this is always so, since the callback is then installed
    only on a path that has a registered method and a table that is not
    empty. *)
Theorem C9_allow_nonempty_returned (cs : list Steps.api_call) (path : string)
    (σ : World) :
  let a0 := Steps.NewApplication NewServeMux in
  let a := Steps.run accepts cs a0 in
  path ∈ Steps.mux a →
  Steps.table a path !! Method (request σ) = None →
  ∃ allow : string,
    Steps.dispatch range_order a path σ
    = Returned (on_writer (Error "Method Not Allowed" StatusMethodNotAllowed)
                  (on_writer (Header_Set "Allow" allow) σ))
    ∧ allow = Steps.allowedMethods range_order a path
    ∧ (allow ≠ "" ↔ Steps.registered accepts cs a0 path ≠ [])
    ∧ (Steps.completes accepts cs a0 →
       allow ≠ ""
       ∧ Steps.registered accepts cs a0 path ≠ []
       ∧ Steps.table a path ≠ ∅).
Proof.
  intros a0 a Hin Hmiss.
  assert (Hkeys : ∀ m, m ∈ keys (Steps.table a path)
                       ↔ m ∈ Steps.registered accepts cs a0 path).
  { intros m. rewrite elem_of_keys. unfold a, a0.
    rewrite Steps_run_tables, Steps_new_table.
    split; [|by right]. by intros [[? ?]|?]. }
  assert (Hnames : ∀ k, k ∈ range_order (keys (Steps.table a path)) → k ≠ "").
  { intros k Hk. rewrite range_order_perm in Hk.
    eapply canonical_nonempty, Steps_registered_canonical, Hkeys, Hk. }
  assert (Hallow : Steps.allowedMethods range_order a path
                   = String.concat ", " (range_order (keys (Steps.table a path)))).
  { unfold Steps.allowedMethods. by apply allowedMethods_loop_concat. }
  assert (Hiff : Steps.allowedMethods range_order a path ≠ ""
                 ↔ Steps.registered accepts cs a0 path ≠ []).
  { rewrite Hallow. split.
    - intros Hne Hnil. apply Hne.
      destruct (keys (Steps.table a path)) as [|k ks] eqn:E.
      + by rewrite (proj1 (Permutation_nil_r _) (range_order_perm [])).
      + assert (Hk : k ∈ Steps.registered accepts cs a0 path).
        { apply Hkeys. by left. }
        rewrite Hnil in Hk. by apply elem_of_nil in Hk.
    - intros Hreg. apply concat_nonempty; [|done].
      destruct (Steps.registered accepts cs a0 path) as [|m ms] eqn:E; [done|].
      assert (Hm : m ∈ range_order (keys (Steps.table a path))).
      { rewrite range_order_perm. apply Hkeys. by left. }
      intros Hnil. rewrite Hnil in Hm. by apply elem_of_nil in Hm. }
  exists (Steps.allowedMethods range_order a path). split_and!; [|done|done|].
  - unfold Steps.dispatch. by rewrite Hmiss.
  - intros Hc.
    destruct (Steps_installed_ok_run accepts cs a0 Steps_installed_ok_new) as [_ Hkey].
    fold a in Hkey. destruct (Hkey path Hin) as [t Ht].
    destruct (Steps_complete_ok_run accepts cs a0 Hc Steps_complete_ok_new path t Ht)
      as [_ Hne].
    assert (Htable : Steps.table a path = t).
    { unfold Steps.table. by rewrite Ht. }
    destruct (map_choose t Hne) as (m & h & Hm).
    assert (Hreg : Steps.registered accepts cs a0 path ≠ []).
    { intros Hnil.
      assert (Hmk : m ∈ Steps.registered accepts cs a0 path).
      { apply Hkeys, elem_of_keys. rewrite Htable. eauto. }
      rewrite Hnil in Hmk. by apply elem_of_nil in Hmk. }
    split_and!; [by apply Hiff|done|by rewrite Htable].
Qed.

End StepsAllow.

(** ** A registration that panics *)

(** C6, refuted as stated: [Get("/x", H, A, nil)] on a new router panics
    while it composes, after the table was stored and the callback
    installed; the router it leaves has the key ["/x"] and the callback,
    with no method registered and an empty table. *)
Lemma C6_counterexample_nil_middleware :
  let a0 := Steps.NewApplication NewServeMux in
  let a := Steps.run Steps.accepts_all [Steps.nil_middleware_call] a0 in
  Steps.returned (Steps.exec Steps.accepts_all a0 Steps.nil_middleware_call) = false
  ∧ Steps.pathMethodHandlerMap a !! "/x" = Some ∅
  ∧ Steps.registered Steps.accepts_all [Steps.nil_middleware_call] a0 "/x" = []
  ∧ Steps.mux a = ["/x"].
Proof. vm_compute. by split_and!. Qed.

(** C9, refuted as stated: on the router that [Get("/x", H, A, nil)]
    leaves behind, the callback of ["/x"] is installed and answers every
    request with 405 and the empty string in [Allow]. *)
Lemma C9_counterexample_nil_middleware :
  let a0 := Steps.NewApplication NewServeMux in
  let a := Steps.run Steps.accepts_all [Steps.nil_middleware_call] a0 in
  Steps.returned (Steps.exec Steps.accepts_all a0 Steps.nil_middleware_call) = false
  ∧ "/x" ∈ Steps.mux a
  ∧ Steps.table a "/x" !! Method (request (fresh "GET" "/x")) = None
  ∧ Steps.dispatch id a "/x" (fresh "GET" "/x")
    = Returned (on_writer (Error "Method Not Allowed" StatusMethodNotAllowed)
                  (on_writer (Header_Set "Allow" "") (fresh "GET" "/x")))
  ∧ Steps.allowedMethods id a "/x" = "".
Proof. split_and!; [reflexivity|compute_done|reflexivity|reflexivity|reflexivity]. Qed.

(** A pattern that the multiplexer rejects: the first call panics after
    the table was stored, and the second, which returns, registers a
    method for a path that never gets a callback. *)
Example rejected_pattern :
  let a0 := Steps.NewApplication NewServeMux in
  let cs := [Steps.CallEntry VGet "" (logging "H") [];
             Steps.CallEntry VGet "" (logging "H") []] in
  let a := Steps.run Steps.accepts_nonempty cs a0 in
  Steps.returned (Steps.exec Steps.accepts_nonempty a0
                    (Steps.CallEntry VGet "" (logging "H") [])) = false
  ∧ Steps.registered Steps.accepts_nonempty cs a0 "" = ["GET"]
  ∧ keys (Steps.table a "") = ["GET"]
  ∧ Steps.mux a = [].
Proof. vm_compute. by split_and!. Qed.

Lemma Steps_foo_calls_complete :
  Steps.completes Steps.accepts_all Steps_foo_calls (Steps.NewApplication NewServeMux).
Proof. by vm_compute. Qed.

Lemma C6_routes_invariant_returned_witness :
  Steps.completes Steps.accepts_all Steps_foo_calls (Steps.NewApplication NewServeMux)
  ∧ (is_Some (Steps.pathMethodHandlerMap
                (Steps.run Steps.accepts_all Steps_foo_calls
                   (Steps.NewApplication NewServeMux)) !! "/foo")
     ↔ "/foo" ∈ Steps.mux (Steps.run Steps.accepts_all Steps_foo_calls
                             (Steps.NewApplication NewServeMux))).
Proof.
  split; [exact Steps_foo_calls_complete|].
  destruct (C6_routes_invariant_returned Steps.accepts_all Steps_foo_calls)
    as (_ & _ & _ & _ & _ & _ & _ & Hreturned).
  destruct (Hreturned Steps_foo_calls_complete) as (_ & Hmux & _).
  exact (Hmux "/foo").
Defined.

Lemma C9_allow_nonempty_returned_witness :
  "/foo" ∈ Steps.mux (Steps.run Steps.accepts_all Steps_foo_calls
                        (Steps.NewApplication NewServeMux))
  ∧ ∃ allow : string,
      Steps.dispatch id
        (Steps.run Steps.accepts_all Steps_foo_calls (Steps.NewApplication NewServeMux))
        "/foo" (fresh "PUT" "/foo")
      = Returned (on_writer (Error "Method Not Allowed" StatusMethodNotAllowed)
                    (on_writer (Header_Set "Allow" allow) (fresh "PUT" "/foo")))
      ∧ allow = Steps.allowedMethods id
                  (Steps.run Steps.accepts_all Steps_foo_calls
                     (Steps.NewApplication NewServeMux)) "/foo"
      ∧ (allow ≠ ""
         ↔ Steps.registered Steps.accepts_all Steps_foo_calls
             (Steps.NewApplication NewServeMux) "/foo" ≠ [])
      ∧ (Steps.completes Steps.accepts_all Steps_foo_calls
           (Steps.NewApplication NewServeMux) →
         allow ≠ ""
         ∧ Steps.registered Steps.accepts_all Steps_foo_calls
             (Steps.NewApplication NewServeMux) "/foo" ≠ []
         ∧ Steps.table (Steps.run Steps.accepts_all Steps_foo_calls
                          (Steps.NewApplication NewServeMux)) "/foo" ≠ ∅).
Proof.
  assert (H1 : "/foo" ∈ Steps.mux (Steps.run Steps.accepts_all Steps_foo_calls
                                     (Steps.NewApplication NewServeMux)))
    by compute_done.
  split; [exact H1|].
  exact (C9_allow_nonempty_returned Steps.accepts_all id id_perm Steps_foo_calls
           "/foo" (fresh "PUT" "/foo") H1 eq_refl).
Defined.
